(** * Music recommender: embedding fusion, similarity search, track resolution

    A shallow embedding of the numerical core and of the track resolution
    of the recommender:

    - [SimilarityEngine]  recommender/engine/similarity_engine.py
    - [EmbeddingCombiner] embeddings/embedding_combiner.py
    - [FeatureEmbeddingsGenerator] embeddings/generators/feature_embeddings.py
      (missing-value handling)
    - [MusicRecommender]  recommender/engine/recommender.py

    Conventions.  A float64 is idealised by a real number ([R]) in the vector
    code and by a rational ([Q]) in the imputation code; [-np.inf] is a
    constructor of its own and a missing value ([None], NaN) is [None].
    The scores of the fuzzy search, which the code compares with a
    threshold, are binary64 floats with the IEEE 754 operations
    ([PrimFloat]), as Python computes them.  A Python exception is the
    [Raise] constructor of [pyresult].  The data frame is the one cached by
    [load_data], with its default index 0, 1, 2, ...  NumPy, scikit-learn,
    pandas and difflib are not part of the repository: the few functions of
    theirs that the code calls are modelled after their documented
    behaviour, each under a comment that says so.  Where the documentation
    leaves the outcome open (the order of equal keys in [np.argsort]) or
    the function rests on tables that are not reproduced here
    ([str.lower]), the function is also taken as a parameter
    ([find_similar_with], [_fuzzy_search_with]), so that a property can be
    stated for every function that meets the documentation. *)

From Stdlib Require Import Floats.
From Stdlib Require Uint63.
From Stdlib Require Import String Ascii.
From Stdlib Require Import List Bool Arith ZArith QArith Lia Psatz.
From Stdlib Require Import Reals.
From Stdlib Require Import Sorting.Permutation.
Import ListNotations.

(** A decimal float literal denotes the nearest binary64 value, as it does
    in Python. *)
Set Warnings "-inexact-float".

(* ------------------------------------------------------------------ *)
(** ** Python results *)

Module Py.

(** The exceptions that the modelled code can let escape. *)
Inductive exn : Type :=
| ValueError
| TypeError
| IndexError.

Inductive pyresult (A : Type) : Type :=
| Ok (a : A)
| Raise (e : exn).
Arguments Ok {A} a.
Arguments Raise {A} e.

Definition bind {A B} (m : pyresult A) (f : A -> pyresult B) : pyresult B :=
  match m with
  | Ok a => f a
  | Raise e => Raise e
  end.

(** [l[:k]] for a Python int [k]: a negative [k] counts from the end. *)
Definition slice_to {A} (l : list A) (k : Z) : list A :=
  if (0 <=? k)%Z then firstn (Z.to_nat k) l
  else firstn (length l - Z.to_nat (- k)) l.

(** Truthiness of an [Optional[str]]: [None] and the empty string are
    falsy. *)
Definition truthy (s : option string) : bool :=
  match s with
  | None => false
  | Some EmptyString => false
  | Some _ => true
  end.

End Py.
Import Py.

Declare Scope py_scope.
Notation "x <- m ;; f" := (Py.bind m (fun x => f))
(at level 61, m at next level, right associativity) : py_scope.
Notation "m ;;; f" := (Py.bind m (fun _ => f))
(at level 61, right associativity) : py_scope.
Open Scope py_scope.

(* ------------------------------------------------------------------ *)
(** ** Dense vectors and matrices over the reals *)

Module Numpy.
Local Open Scope R_scope.

Definition vec := list R.
(** A 2-D array, as the list of its rows. *)
Definition matrix := list vec.

(** Inner product of two 1-D arrays of the same length. *)
Fixpoint inner (a b : vec) : R :=
  match a, b with
  | x :: a', y :: b' => x * y + inner a' b'
  | _, _ => 0
  end.

(** [np.linalg.norm(v)]: the L2 norm. *)
Definition norm (v : vec) : R := sqrt (inner v v).

Definition scale (v : vec) (c : R) : vec := map (fun x => x * c) v.
Definition divide (v : vec) (c : R) : vec := map (fun x => x / c) v.

(** All rows of [X] have [d] columns. *)
Definition has_cols (d : nat) (X : matrix) : bool :=
  forallb (fun row => Nat.eqb (length row) d) X.

(** [X[i][j]], when both indices are in range. *)
Definition entry (X : matrix) (i j : nat) : option R :=
  match nth_error X i with
  | Some row => nth_error row j
  | None => None
  end.

(** Number of columns of a non-empty 2-D array. *)
Definition ncols (X : matrix) : nat :=
  match X with
  | [] => 0
  | row :: _ => length row
  end.

(** Modelled from the library: [np.dot(X, Y.T)] for 2-D [X] (N x D) and
    [Y] (M x D) is the N x M matrix of inner products of rows; it raises
    [ValueError] when the column counts differ.  (A list of rows does not
    record the column count of an array without rows: such an [X] is taken
    to agree with [Y].) *)
Definition dot_T (X Y : matrix) : pyresult matrix :=
  match X with
  | [] => Ok []
  | x :: _ =>
      if has_cols (length x) X && has_cols (length x) Y
      then Ok (map (fun x => map (fun y => inner x y) Y) X)
      else Raise ValueError
  end.

(** Modelled from the library: [np.vstack(rows)] stacks 1-D arrays of one
    common length into a 2-D array.  It raises [ValueError] on an empty
    sequence and on rows of different lengths.  A [None] entry becomes a
    1 x 1 object row: stacking it with rows of another length raises
    [ValueError], and with rows of length 1 (or only [None] rows) the
    result is an object array holding [None], on which every metric of
    [SimilarityEngine] raises [TypeError]; the model raises at the
    stacking step in both cases. *)
Fixpoint all_present (rows : list (option vec)) : option matrix :=
  match rows with
  | [] => Some []
  | None :: _ => None
  | Some v :: rest =>
      match all_present rest with
      | Some m => Some (v :: m)
      | None => None
      end
  end.

Definition vstack (rows : list (option vec)) : pyresult matrix :=
  match rows with
  | [] => Raise ValueError
  | _ =>
      match all_present rows with
      | None =>
          if forallb (fun r => match r with
                               | None => true
                               | Some v => Nat.eqb (length v) 1
                               end) rows
          then Raise TypeError else Raise ValueError
      | Some m => if has_cols (ncols m) m then Ok m else Raise ValueError
      end
  end.

End Numpy.

(* ------------------------------------------------------------------ *)
(** ** The two scikit-learn pairwise functions *)

Module Sklearn.
Import Numpy.
Local Open Scope R_scope.

(** Modelled from the library: [check_pairwise_arrays(X, Y)] accepts two
    2-D arrays with at least one row and one column each and the same
    number of columns, and raises [ValueError] otherwise. *)
Definition check_pairwise_arrays (X Y : matrix) : pyresult unit :=
  match X, Y with
  | x :: _, _ :: _ =>
      if Nat.ltb 0 (length x) && has_cols (length x) X && has_cols (length x) Y
      then Ok tt else Raise ValueError
  | _, _ => Raise ValueError
  end.

(** Modelled from the library: [normalize] divides each row by its L2
    norm, a zero norm being replaced by 1. *)
Definition handle_zeros (n : R) : R := if Req_dec_T n 0 then 1 else n.
Definition normalize_row (x : vec) : vec := divide x (handle_zeros (norm x)).

(** Modelled from the library: [cosine_similarity(X, Y)] is the matrix of
    inner products of the L2-normalised rows. *)
Definition cosine_similarity (X Y : matrix) : pyresult matrix :=
  check_pairwise_arrays X Y ;;;
  Ok (map (fun x => map (fun y => inner (normalize_row x) (normalize_row y)) Y) X).

(** Modelled from the library: [euclidean_distances(X, Y)] computes
    [sqrt(max(-2 x.y + x.x + y.y, 0))] for every pair of rows. *)
Definition euclidean_distances (X Y : matrix) : pyresult matrix :=
  check_pairwise_arrays X Y ;;;
  Ok (map (fun x => map (fun y =>
        sqrt (Rmax (-2 * inner x y + inner x x + inner y y) 0)) Y) X).

End Sklearn.

(* ------------------------------------------------------------------ *)
(** ** recommender/engine/similarity_engine.py *)

Module SimilarityEngine.
Import Numpy Sklearn.
Local Open Scope R_scope.

Inductive metric : Type := cosine | euclidean | dot.

(** [SimilarityEngine.__init__]: an unsupported metric name raises. *)
Definition init (name : string) : pyresult metric :=
  if String.eqb name "cosine" then Ok cosine
  else if String.eqb name "euclidean" then Ok euclidean
  else if String.eqb name "dot" then Ok dot
  else Raise ValueError.

(** A similarity value: a finite float or [-np.inf]. *)
Inductive score : Type :=
| NegInf
| Fin (x : R).

Definition score_leb (a b : score) : bool :=
  match a, b with
  | NegInf, _ => true
  | Fin _, NegInf => false
  | Fin x, Fin y => if Rle_dec x y then true else false
  end.

(** Row 0 of a 2-D array ([...[0]]). *)
Definition row0 (K : matrix) : vec := hd [] K.

(** Lines 55-62: the similarity of the query to every row of the matrix.
    The 1-D query is first reshaped to 1 x D. *)
Definition similarities (m : metric) (query_embedding : vec)
    (embeddings_matrix : matrix) : pyresult (list R) :=
  let q2 := [query_embedding] in
  match m with
  | cosine =>
      K <- cosine_similarity q2 embeddings_matrix ;; Ok (row0 K)
  | euclidean =>
      distances <- euclidean_distances q2 embeddings_matrix ;;
      Ok (map (fun d => 1 / (1 + d)) (row0 distances))
  | dot =>
      P <- dot_T embeddings_matrix q2 ;; Ok (concat P)
  end.

(** [a[i] = v] on a list, for an index known to be in range. *)
Fixpoint assign {A} (l : list A) (i : nat) (v : A) : list A :=
  match l, i with
  | [], _ => []
  | _ :: l', O => v :: l'
  | x :: l', S i' => x :: assign l' i' v
  end.

(** Lines 65-68: the guarded assignment of [-np.inf]. *)
Definition exclude_one (sims : list score) (idx : Z) : list score :=
  if ((0 <=? idx)%Z && (idx <? Z.of_nat (length sims))%Z)%bool
  then assign sims (Z.to_nat idx) NegInf
  else sims.

Definition exclude (sims : list score) (exclude_indices : option (list Z))
  : list score :=
  match exclude_indices with
  | None => sims
  | Some [] => sims
  | Some l => fold_left exclude_one l sims
  end.

(** Modelled from the library: [np.argsort(a)] returns the indices that
    sort [a] in ascending order.  NumPy's default sort kind is not stable:
    the order it leaves among equal keys is not documented.  [argsort]
    below is one outcome that the documentation allows, the stable order
    (equal keys keep their index order), which is what NumPy's insertion
    sort yields on short arrays; it is what the worked examples run.
    [find_similar_with] takes the sort as a parameter, so that a property
    of the ranking can be stated for every sort that NumPy may perform. *)
Fixpoint insert (key : nat -> score) (i : nat) (l : list nat) : list nat :=
  match l with
  | [] => [i]
  | j :: l' =>
      if score_leb (key i) (key j) then i :: l else j :: insert key i l'
  end.

Definition argsort (a : list score) : list nat :=
  fold_right (insert (fun i => nth i a NegInf)) [] (seq 0 (length a)).

(** [find_similar], with [np.argsort] as the parameter [argsort]. *)
Definition find_similar_with (argsort : list score -> list nat)
    (m : metric) (query_embedding : vec)
    (embeddings_matrix : matrix) (k : Z) (exclude_indices : option (list Z))
  : pyresult (list (nat * score)) :=
  sims <- similarities m query_embedding embeddings_matrix ;;
  let similarities := exclude (map Fin sims) exclude_indices in
  let top_k_indices := slice_to (rev (argsort similarities)) k in
  Ok (map (fun idx => (idx, nth idx similarities NegInf)) top_k_indices).

Definition find_similar : metric -> vec -> matrix -> Z -> option (list Z)
  -> pyresult (list (nat * score)) :=
  find_similar_with argsort.

(** [...[0][0]] of a 2-D array. *)
Definition entry00 (K : matrix) : R := hd 0 (hd [] K).

Definition compute_similarity (m : metric) (embedding1 embedding2 : vec)
  : pyresult R :=
  let e1 := [embedding1] in
  let e2 := [embedding2] in
  match m with
  | cosine => K <- cosine_similarity e1 e2 ;; Ok (entry00 K)
  | euclidean =>
      distances <- euclidean_distances e1 e2 ;;
      Ok (1 / (1 + entry00 distances))
  | dot => P <- dot_T e1 e2 ;; Ok (entry00 P)
  end.

Definition batch_similarity (m : metric) (query_embeddings target_embeddings : matrix)
  : pyresult matrix :=
  match m with
  | cosine => cosine_similarity query_embeddings target_embeddings
  | euclidean =>
      distances <- euclidean_distances query_embeddings target_embeddings ;;
      Ok (map (map (fun d => 1 / (1 + d))) distances)
  | dot => dot_T query_embeddings target_embeddings
  end.

End SimilarityEngine.

(* ------------------------------------------------------------------ *)
(** ** embeddings/embedding_combiner.py *)

Module EmbeddingCombiner.
Import Numpy.
Local Open Scope R_scope.

(** The configuration dictionary: a key may be absent. *)
Record config_dict : Type := {
  cfg_text_weight : option R;
  cfg_features_weight : option R;
  cfg_normalize : option bool
}.

(** The combiner after [__init__], with the defaults of [config.get]. *)
Record combiner : Type := {
  text_weight : R;
  features_weight : R;
  normalize : bool
}.

Definition init (config : config_dict) : combiner :=
  {| text_weight := match cfg_text_weight config with Some w => w | None => 7 / 10 end;
     features_weight :=
       match cfg_features_weight config with Some w => w | None => 3 / 10 end;
     normalize := match cfg_normalize config with Some b => b | None => true end |}.

Definition _normalize_vector (vector : vec) : vec :=
  let norm := norm vector in
  if Req_dec_T norm 0 then vector else divide vector norm.

(** A record of the data frame: the two embedding cells, [None] when the
    embedding is missing. *)
Record row : Type := {
  text_embedding : option vec;
  feature_embedding : option vec
}.

(** The weighted concatenation of lines 72-82, before the final
    normalisation. *)
Definition weighted_concat (self : combiner) (text_emb feature_emb : vec) : vec :=
  let text_emb := if normalize self then _normalize_vector text_emb else text_emb in
  let feature_emb :=
    if normalize self then _normalize_vector feature_emb else feature_emb in
  let text_weighted := scale text_emb (text_weight self) in
  let features_weighted := scale feature_emb (features_weight self) in
  text_weighted ++ features_weighted.

(** The body of the loop of [combine_embeddings] (lines 59-88): the value
    appended to [combined_embeddings] for one record. *)
Definition combine_row (self : combiner) (r : row) : option vec :=
  match text_embedding r, feature_embedding r with
  | Some text_emb, Some feature_emb =>
      let combined := weighted_concat self text_emb feature_emb in
      Some (if normalize self then _normalize_vector combined else combined)
  | _, _ => None
  end.

(** The data frame handed to [combine_embeddings]: whether the two
    embedding columns exist, and the records. *)
Record frame : Type := {
  has_text_embedding : bool;
  has_feature_embedding : bool;
  records : list row
}.

(** The frame returned: the input, and the two added columns when the
    combination ran. *)
Record combined_frame : Type := {
  source : frame;
  combined_embedding : option (list (option vec));
  combined_dimension : option nat
}.

Definition unchanged (df : frame) : combined_frame :=
  {| source := df; combined_embedding := None; combined_dimension := None |}.

Definition combine_embeddings (self : combiner) (df : frame) : combined_frame :=
  match records df with
  | [] => unchanged df
  | _ =>
      if negb (has_text_embedding df) || negb (has_feature_embedding df)
      then unchanged df
      else
        let combined_embeddings := map (combine_row self) (records df) in
        {| source := df;
           combined_embedding := Some combined_embeddings;
           combined_dimension :=
             Some (match hd None combined_embeddings with
                   | Some v => length v
                   | None => 0%nat
                   end) |}
  end.

End EmbeddingCombiner.

(* ------------------------------------------------------------------ *)
(** ** embeddings/generators/feature_embeddings.py: missing values *)

Module FeatureEmbeddingsGenerator.
Local Open Scope Q_scope.

(** A cell of a numeric column: a number, or [None] for NaN. *)
Definition cell := option Q.
Definition column := (string * list cell)%type.
(** A data frame of numeric features, as the list of its columns. *)
Definition frame := list column.

Definition isna (c : cell) : bool :=
  match c with None => true | Some _ => false end.

Fixpoint observed (col : list cell) : list Q :=
  match col with
  | [] => []
  | None :: rest => observed rest
  | Some x :: rest => x :: observed rest
  end.

Fixpoint insert_value (x : Q) (l : list Q) : list Q :=
  match l with
  | [] => [x]
  | y :: l' => if Qle_bool x y then x :: l else y :: insert_value x l'
  end.

Definition sort_values (l : list Q) : list Q := fold_right insert_value [] l.

(** Modelled from the library: [Series.median()] skips NaN and returns
    the middle of the sorted remaining values (the mean of the two middle
    ones when their number is even), and NaN when nothing remains. *)
Definition median (col : list cell) : cell :=
  let values := sort_values (observed col) in
  let n := length values in
  if Nat.eqb n 0 then None
  else if Nat.odd n then Some (nth (n / 2) values 0)
  else Some ((nth (n / 2 - 1) values 0 + nth (n / 2) values 0) / 2).

(** Modelled from the library: [Series.fillna(value)] replaces every NaN
    by [value]; filling with NaN changes nothing. *)
Definition fillna (value : cell) (col : list cell) : list cell :=
  match value with
  | None => col
  | Some v => map (fun c => match c with None => Some v | Some _ => c end) col
  end.

Definition _handle_missing_values (X : frame) : frame :=
  map (fun c : column =>
         let (name, col) := c in
         if existsb isna col
         then (name, fillna (median col) col)
         else (name, col)) X.

(** Lines 80-92 of [generate_embeddings]: the matrix handed to
    [scaler.fit_transform], or [None] when the function returns before
    (empty frame, or none of the requested columns present). *)
Definition scaler_input (df : frame) (numeric_features : list string)
  : option frame :=
  if forallb (fun c : column => Nat.eqb (length (snd c)) 0) df then None
  else
    let available_features :=
      filter (fun f => existsb (fun c : column => String.eqb (fst c) f) df)
             numeric_features in
    match available_features with
    | [] => None
    | _ =>
        let X := flat_map (fun f =>
                   match find (fun c : column => String.eqb (fst c) f) df with
                   | Some c => [c]
                   | None => []
                   end) available_features in
        Some (_handle_missing_values X)
    end.

End FeatureEmbeddingsGenerator.

(* ------------------------------------------------------------------ *)
(** ** Strings *)

Module Str.
Local Open Scope nat_scope.

(** [str.lower()], on ASCII letters (other characters are unchanged). *)
Definition lower_ascii (c : ascii) : ascii :=
  let n := nat_of_ascii c in
  if Nat.leb 65 n && Nat.leb n 90 then ascii_of_nat (n + 32) else c.

Fixpoint lower (s : string) : string :=
  match s with
  | EmptyString => EmptyString
  | String c s' => String (lower_ascii c) (lower s')
  end.

End Str.

(* ------------------------------------------------------------------ *)
(** ** difflib.SequenceMatcher(None, a, b).ratio() *)

Module Difflib.
Local Open Scope nat_scope.

(** Length of the longest common prefix. *)
Fixpoint common_prefix (a b : list ascii) : nat :=
  match a, b with
  | x :: a', y :: b' => if Ascii.eqb x y then S (common_prefix a' b') else 0
  | _, _ => 0
  end.

(** A matching block [(i, j, k)]: [a[i:i+k] == b[j:j+k]]. *)
Definition block := (nat * nat * nat)%type.
Definition size (m : block) : nat := snd m.

(** Scan of the start positions [j..] in [b] for a fixed start [i] in [a];
    [a] and [b] are the suffixes at [i] and [j].  A block replaces the best
    one only when strictly longer, so the earliest one is kept. *)
Fixpoint scan_b (a b : list ascii) (i j : nat) (best : block) : block :=
  match b with
  | [] => best
  | _ :: b' =>
      let k := common_prefix a b in
      scan_b a b' i (S j) (if Nat.ltb (size best) k then (i, j, k) else best)
  end.

Fixpoint scan_a (a b : list ascii) (i : nat) (best : block) : block :=
  match a with
  | [] => best
  | _ :: a' => scan_a a' b (S i) (scan_b a b i 0 best)
  end.

(** Modelled from the library: [find_longest_match] returns a longest
    block common to [a] and [b]; of all longest blocks the one starting
    earliest in [a], and of those the one starting earliest in [b]; size 0
    when nothing matches.  (No junk: [isjunk] is [None], and the automatic
    junk heuristic only acts on a second string of 200 characters or
    more, which the model does not cover.) *)
Definition find_longest_match (a b : list ascii) : block :=
  scan_a a b 0 (0, 0, 0).

(** Modelled from the library: the total size of the matching blocks: the
    longest match, then recursively the pieces to its left and to its
    right.  [fuel] bounds the recursion depth; [length a] is enough, each
    call working on a strictly shorter piece of [a]. *)
Fixpoint matching_size (fuel : nat) (a b : list ascii) : nat :=
  match fuel with
  | O => 0
  | S fuel' =>
      match find_longest_match a b with
      | (i, j, k) =>
          if Nat.eqb k 0 then 0
          else k + matching_size fuel' (firstn i a) (firstn j b)
                 + matching_size fuel' (skipn (i + k) a) (skipn (j + k) b)
      end
  end.

(** A Python int as a float64 (exact below 2^53, and so for every
    length). *)
Definition float_of_nat (n : nat) : float :=
  PrimFloat.of_uint63 (Uint63.of_Z (Z.of_nat n)).

(** Modelled from the library: [ratio()] is [2.0 * matches / length] in
    float64 arithmetic, with [matches] the number of matched characters and
    [length] the total length of both strings, and 1.0 when both are
    empty. *)
Definition ratio (a b : string) : float :=
  let la := list_ascii_of_string a in
  let lb := list_ascii_of_string b in
  let matches := matching_size (length la) la lb in
  let total := (length la + length lb)%nat in
  if Nat.eqb total 0 then 1%float
  else (2 * float_of_nat matches / float_of_nat total)%float.

End Difflib.

(* ------------------------------------------------------------------ *)
(** ** recommender/engine/recommender.py *)

Module MusicRecommender.
Import Numpy SimilarityEngine Str Difflib.
Local Open Scope float_scope.

(** A row of the table loaded by [load_data]. *)
Record track : Type := {
  track_id : string;
  track_name : string;
  artist_name : string;
  album_name : string;
  combined_embedding : option vec;
  text_embedding : option vec;
  feature_embedding : option vec
}.

(** The cached data frame: rows in table order, indexed 0, 1, 2, ... *)
Definition dataframe := list track.

(** The configuration dictionary: a key may be absent. *)
Record config_dict : Type := {
  exclude_same_artist : option bool;
  min_similarity_threshold : option R;
  fuzzy_matching : option bool;
  fuzzy_threshold : option float
}.

Definition get {A} (value : option A) (default : A) : A :=
  match value with Some v => v | None => default end.

Record recommender : Type := {
  similarity_engine : metric;
  config : config_dict;
  _embeddings_cache : dataframe
}.

Section Lower.
(** [str.lower], of which the fuzzy search uses nothing but the result. *)
Variable lower : string -> string.

(** Lines 246-263: the score of one row in the fuzzy scan, in float64
    arithmetic. *)
Definition combined_score_with (name : string) (artist : option string)
    (row : track) : float :=
  let name_similarity := ratio (lower name) (lower (track_name row)) in
  match artist with
  | Some a =>
      if truthy artist then
        let artist_similarity := ratio (lower a) (lower (artist_name row)) in
        name_similarity * 0.7 + artist_similarity * 0.3
      else name_similarity
  | None => name_similarity
  end.

(** One iteration of the loop of [_fuzzy_search] on the state
    [(best_match, best_score)]: the row is taken when
    [combined_score > best_score and combined_score >= threshold]. *)
Definition fuzzy_step_with (threshold : float) (name : string)
    (artist : option string) (state : option track * float) (row : track)
  : option track * float :=
  let score := combined_score_with name artist row in
  if (snd state <? score) && (threshold <=? score)
  then (Some row, score)
  else state.

Definition _fuzzy_search_with (self : recommender) (df : dataframe)
    (name : string) (artist : option string) : option dataframe :=
  let threshold := get (fuzzy_threshold (config self)) 0.8 in
  match fst (fold_left (fuzzy_step_with threshold name artist) df (None, 0)) with
  | Some best_match => Some [best_match]
  | None => None
  end.

End Lower.

(** The same with the lowercasing of [Str]. *)
Definition combined_score : string -> option string -> track -> float :=
  combined_score_with lower.

Definition fuzzy_step
  : float -> string -> option string -> option track * float -> track
    -> option track * float :=
  fuzzy_step_with lower.

Definition _fuzzy_search
  : recommender -> dataframe -> string -> option string -> option dataframe :=
  _fuzzy_search_with lower.

(** Lines 202-218: the search by name, exact and then fuzzy. *)
Definition find_by_name (self : recommender) (df : dataframe)
    (name : string) (artist : option string) : option dataframe :=
  let result :=
    filter (fun r => String.eqb (lower (track_name r)) (lower name)) df in
  let narrowed :=
    match artist with
    | Some a =>
        if Nat.ltb 1 (length result) && truthy artist
        then filter (fun r => String.eqb (lower (artist_name r)) (lower a)) result
        else result
    | None => result
    end in
  match narrowed with
  | r :: _ => Some [r]
  | [] =>
      if get (fuzzy_matching (config self)) true
      then _fuzzy_search self df name artist
      else None
  end.

Definition _find_track (self : recommender) (df : dataframe)
    (id name artist : option string) : option dataframe :=
  let by_id :=
    match id with
    | Some i => if truthy id then filter (fun r => String.eqb (track_id r) i) df else []
    | None => []
    end in
  match by_id with
  | _ :: _ => Some by_id
  | [] =>
      match name with
      | Some n => if truthy name then find_by_name self df n artist else None
      | None => None
      end
  end.

(** [round(x, 4)] on a score: to the nearest multiple of 1/10000, a tie
    going to the even one; [-inf] stays [-inf]. *)
Definition round_half_even (y : R) : Z :=
  let f := (up y - 1)%Z in
  let d := (y - IZR f)%R in
  if Rlt_dec d (1 / 2) then f
  else if Rlt_dec (1 / 2) d then (f + 1)%Z
  else if Z.even f then f else (f + 1)%Z.

Definition round4 (s : score) : score :=
  match s with
  | NegInf => NegInf
  | Fin x => Fin (IZR (round_half_even (x * 10000)) / 10000)
  end.

(** [similarity_score < threshold]. *)
Definition score_ltb (s : score) (threshold : R) : bool :=
  match s with
  | NegInf => true
  | Fin x => if Rlt_dec x threshold then true else false
  end.

Record recommendation : Type := {
  rec_track_id : string;
  rec_track_name : string;
  rec_artist_name : string;
  rec_album_name : string;
  similarity_score : score
}.

(** The column [f'{embedding_type}_embedding'], when the frame has it. *)
Definition embedding_column (embedding_type : string)
  : option (track -> option vec) :=
  if String.eqb embedding_type "combined" then Some combined_embedding
  else if String.eqb embedding_type "text" then Some text_embedding
  else if String.eqb embedding_type "feature" then Some feature_embedding
  else None.

(** Position of the first row with the given identifier. *)
Fixpoint first_index (df : dataframe) (id : string) (i : nat) : option nat :=
  match df with
  | [] => None
  | r :: rest => if String.eqb (track_id r) id then Some i else first_index rest id (S i)
  end.

(** Lines 145-170: the walk over the ranked results. *)
Fixpoint assemble (self : recommender) (df : dataframe) (query_index : nat)
    (query_artist_name : string) (k : Z) (similar_indices : list (nat * score))
    (recommendations : list recommendation)
  : pyresult (list recommendation) :=
  match similar_indices with
  | [] => Ok recommendations
  | (idx, s) :: rest =>
      let continue := assemble self df query_index query_artist_name k rest in
      if Nat.eqb idx query_index then continue recommendations
      else
        match nth_error df idx with
        | None => Raise IndexError
        | Some track =>
            if get (exclude_same_artist (config self)) false
               && String.eqb (artist_name track) query_artist_name
            then continue recommendations
            else if score_ltb s (get (min_similarity_threshold (config self)) 0%R)
            then continue recommendations
            else
              let recommendations :=
                recommendations ++
                [ {| rec_track_id := track_id track;
                     rec_track_name := track_name track;
                     rec_artist_name := artist_name track;
                     rec_album_name := album_name track;
                     similarity_score := round4 s |} ] in
              if (k <=? Z.of_nat (length recommendations))%Z
              then Ok recommendations
              else continue recommendations
        end
  end.

Definition get_recommendations (self : recommender)
    (id name artist : option string) (k : Z) (embedding_type : string)
  : pyresult (list recommendation) :=
  let df := _embeddings_cache self in
  match _find_track self df id name artist with
  | None => Ok []
  | Some [] => Raise IndexError
  | Some (query_row :: _) =>
      let query_track_id := track_id query_row in
      let query_artist_name := artist_name query_row in
      match embedding_column embedding_type with
      | None => Ok []
      | Some column =>
          let query_embedding := column query_row in
          embeddings_matrix <- vstack (map column df) ;;
          match first_index df query_track_id 0 with
          | None => Raise IndexError
          | Some query_index =>
              similar_indices <-
                match query_embedding with
                | None => Raise TypeError
                | Some q =>
                    find_similar (similarity_engine self) q embeddings_matrix
                                 (k + 1) (Some [Z.of_nat query_index])
                end ;;
              assemble self df query_index query_artist_name k similar_indices []
          end
      end
  end.

End MusicRecommender.

(* ------------------------------------------------------------------ *)
(** ** recommender/engine/recommender.py: get_batch_recommendations *)

Module BatchRecommendations.
Import MusicRecommender.

(** A Python dict with string keys, in insertion order: [d[key] = v]
    replaces the value of an existing key and appends a new one. *)
Fixpoint dict_set {V} (d : list (string * V)) (key : string) (v : V)
  : list (string * V) :=
  match d with
  | [] => [(key, v)]
  | (k', v') :: d' =>
      if String.eqb k' key then (k', v) :: d' else (k', v') :: dict_set d' key v
  end.

Fixpoint dict_get {V} (d : list (string * V)) (key : string) : option V :=
  match d with
  | [] => None
  | (k', v') :: d' => if String.eqb k' key then Some v' else dict_get d' key
  end.

(** One iteration of the loop; an exception of [get_recommendations] ends
    the whole call. *)
Definition batch_step (self : recommender) (k : Z) (embedding_type : string)
    (results : pyresult (list (string * list recommendation)))
    (track_id : string) : pyresult (list (string * list recommendation)) :=
  d <- results ;;
  recommendations <-
    get_recommendations self (Some track_id) None None k embedding_type ;;
  Ok (dict_set d track_id recommendations).

Definition get_batch_recommendations (self : recommender)
    (track_ids : list string) (k : Z) (embedding_type : string)
  : pyresult (list (string * list recommendation)) :=
  fold_left (batch_step self k embedding_type) track_ids (Ok []).

End BatchRecommendations.

(* ------------------------------------------------------------------ *)
(** ** recommender/api/semantic_search.py: search_by_concept *)

Module SemanticSearch.
Import Numpy SimilarityEngine.

(** [score >= min_similarity]. *)
Definition score_geb (s : score) (min_similarity : R) : bool :=
  match s with
  | NegInf => false
  | Fin x => if Rle_dec min_similarity x then true else false
  end.

(** [query_embedding] is the outcome of [generate_query_embedding], a call
    to the external embedding service whose failures are re-raised. *)
Definition search_by_concept (query_embedding : pyresult vec)
    (embeddings_matrix : matrix) (similarity_engine : metric) (k : Z)
    (min_similarity : R) : pyresult (list (nat * score)) :=
  q <- query_embedding ;;
  results <- find_similar similarity_engine q embeddings_matrix k None ;;
  Ok (filter (fun r => score_geb (snd r) min_similarity) results).

End SemanticSearch.

(* ------------------------------------------------------------------ *)
(** ** recommender/api/endpoints.py: GET /recommend *)

Module Endpoints.
Import MusicRecommender.

(** What the handler hands back to the framework: a response body, or an
    [HTTPException] with its status code. *)
Inductive http (A : Type) : Type :=
| Response (body : A)
| HTTPException (status_code : nat).
Arguments Response {A} body.
Arguments HTTPException {A} status_code.

Record track_info : Type := {
  info_track_id : string;
  info_track_name : string;
  info_artist_name : string;
  info_album_name : string
}.

Definition info_of (t : track) : track_info :=
  {| info_track_id := track_id t; info_track_name := track_name t;
     info_artist_name := artist_name t; info_album_name := album_name t |}.

Record recommend_response : Type := {
  query : track_info;
  recommendations : list recommendation;
  total : nat;
  response_embedding_type : string
}.

(** The handler of GET /recommend, after the framework has validated the
    query parameters.  [recommender_instance] is the module-level
    instance, [None] before start-up; its frame is cached. *)
Definition get_recommendations (recommender_instance : option recommender)
    (id name artist : option string) (k : Z) (embedding_type : string)
  : http recommend_response :=
  match recommender_instance with
  | None => HTTPException 503
  | Some self =>
      if negb (truthy id) && negb (truthy name) then HTTPException 400
      else if negb (existsb (String.eqb embedding_type)
                      ["text"; "feature"; "combined"]%string)
      then HTTPException 400
      else
        match MusicRecommender.get_recommendations
                self id name artist k embedding_type with
        | Raise _ => HTTPException 500
        | Ok [] => HTTPException 404
        | Ok recs =>
            let df := _embeddings_cache self in
            let respond (query_track : track) :=
              Response {| query := info_of query_track;
                          recommendations := recs;
                          total := length recs;
                          response_embedding_type := embedding_type |} in
            if truthy id then
              match id with
              | Some i =>
                  match filter (fun r => String.eqb (track_id r) i) df with
                  | query_track :: _ => respond query_track
                  | [] => HTTPException 500
                  end
              | None => HTTPException 500
              end
            else
              match _find_track self df None name artist with
              | Some (query_track :: _) => respond query_track
              | _ => HTTPException 404
              end
        end
  end.

End Endpoints.

(* ------------------------------------------------------------------ *)
(** ** embeddings/generators/text_embeddings.py: batching *)

Module TextEmbeddingsGenerator.
Import Numpy.

Section Service.
(** The call [self.model.get_embeddings(batch)] to the external embedding
    service, with the extraction of the vectors: its answer, or an
    exception. *)
Variable get_embeddings : list string -> pyresult (list vec).

(** The loop of [_generate_embeddings_batch] over the batches of
    [batch_size] texts, on the state [(all_embeddings, errors)].  [fuel]
    bounds the number of batches. *)
Fixpoint batch_loop (fuel batch_size : nat) (texts : list string)
    (all_embeddings : list (option vec)) (errors : nat)
  : list (option vec) * nat :=
  match fuel with
  | O => (all_embeddings, errors)
  | S fuel' =>
      match texts with
      | [] => (all_embeddings, errors)
      | _ =>
          let batch := firstn batch_size texts in
          let rest := skipn batch_size texts in
          match get_embeddings batch with
          | Ok batch_embeddings =>
              batch_loop fuel' batch_size rest
                (all_embeddings ++ map Some batch_embeddings) errors
          | Raise _ =>
              batch_loop fuel' batch_size rest
                (all_embeddings ++ repeat None (length batch))
                (errors + length batch)
          end
      end
  end.

(** The result of [_generate_embeddings_batch]: the list of embeddings
    with the [errors] counter of the statistics, or the
    [ZeroDivisionError] of the batch count when [batch_size] is 0. *)
Inductive outcome : Type :=
| Embeddings (all_embeddings : list (option vec)) (errors : nat)
| ZeroDivisionError.

Definition _generate_embeddings_batch (batch_size : Z) (texts : list string)
  : outcome :=
  if (batch_size =? 0)%Z then ZeroDivisionError
  else if (batch_size <? 0)%Z then Embeddings [] 0
  else
    let (all_embeddings, errors) :=
      batch_loop (length texts) (Z.to_nat batch_size) texts [] 0 in
    Embeddings all_embeddings errors.

End Service.

End TextEmbeddingsGenerator.

(* ------------------------------------------------------------------ *)
(** ** Predicates used in the statements *)

Import Numpy Sklearn SimilarityEngine.

(** Every element of [l] stands in [rel] to every later one. *)
Definition ordered {A : Type} (rel : A -> A -> Prop) (l : list A) : Prop :=
  forall p q x y, (p < q)%nat ->
    nth_error l p = Some x -> nth_error l q = Some y -> rel x y.

(** [i] may stand before [j] in an ascending stable order on [key]: its
    key is not larger, and with equal keys its index is smaller. *)
Definition asc (key : nat -> score) (i j : nat) : Prop :=
  score_leb (key i) (key j) = true /\
  (score_leb (key j) (key i) = true -> (i < j)%nat).

(** What NumPy documents of [np.argsort(a)], whatever the sort kind: the
    result is a permutation of the indices of [a], along which the values
    of [a] ascend.  Nothing is said of the order of equal values. *)
Definition sorts_ascending (argsort : list score -> list nat) : Prop :=
  forall a,
    Permutation (argsort a) (seq 0 (length a)) /\
    ordered (fun i j => score_leb (nth i a NegInf) (nth j a NegInf) = true)
            (argsort a).

(** The tie rule of the specification: of two returned candidates with
    equal scores, the one with the smaller index comes first. *)
Definition ties_smaller_index_first (res : list (nat * score)) : Prop :=
  forall p p' i s i' s', (p < p')%nat ->
    nth_error res p = Some (i, s) -> nth_error res p' = Some (i', s') ->
    s = s' -> (i < i')%nat.

(** The similarity of one pair of vectors under each metric. *)
Definition pair_similarity (m : metric) (x y : vec) : R :=
  match m with
  | cosine => inner (normalize_row x) (normalize_row y)
  | euclidean =>
      (1 / (1 + sqrt (Rmax (-2 * inner x y + inner x x + inner y y) 0)))%R
  | dot => inner x y
  end.

(** A matching block that fits in strings of lengths [la] and [lb]. *)
Definition fits (la lb : nat) (m : Difflib.block) : Prop :=
  (fst (fst m) + snd m <= la /\ snd (fst m) + snd m <= lb)%nat.

(** What the fuzzy scan knows after the rows [seen]: either no row was
    accepted so far, or the best match is a seen row whose score reaches
    the threshold and exceeds 0, that no earlier row reaches and no later
    row exceeds. *)
Definition scanned (lower : string -> string) (threshold : float)
    (name : string) (artist : option string)
    (seen : list MusicRecommender.track)
    (state : option MusicRecommender.track * float) : Prop :=
  let score := MusicRecommender.combined_score_with lower name artist in
  match fst state with
  | None =>
      snd state = 0%float /\
      forall r, In r seen ->
        ~ ((threshold <=? score r)%float = true /\ (0 <? score r)%float = true)
  | Some best =>
      snd state = score best /\
      (threshold <=? score best)%float = true /\
      (0 <? score best)%float = true /\
      exists l1 l2, seen = l1 ++ best :: l2 /\
        (forall r, In r l1 -> (score best <=? score r)%float = false) /\
        (forall r, In r l2 -> (score best <? score r)%float = false)
  end.

(** The order of float64 values, NaN apart: a float that is not NaN is a
    point of Z x Z x Z (class and sign, exponent, mantissa), and the floats
    compare as these points do lexicographically.  A NaN compares with
    nothing. *)
Module FloatOrder.
Local Open Scope Z_scope.

Definition key (f : spec_float) : option (Z * Z * Z) :=
  match f with
  | S754_nan => None
  | S754_infinity true => Some (-2, 0, 0)
  | S754_finite true m e => Some (-1, - e, - Zpos m)
  | S754_zero _ => Some (0, 0, 0)
  | S754_finite false m e => Some (1, e, Zpos m)
  | S754_infinity false => Some (2, 0, 0)
  end.

Definition lex_lt (a b : Z * Z * Z) : Prop :=
  let '(a1, a2, a3) := a in
  let '(b1, b2, b3) := b in
  a1 < b1 \/ (a1 = b1 /\ (a2 < b2 \/ (a2 = b2 /\ a3 < b3))).

Definition lex_le (a b : Z * Z * Z) : Prop :=
  let '(a1, a2, a3) := a in
  let '(b1, b2, b3) := b in
  a1 < b1 \/ (a1 = b1 /\ (a2 < b2 \/ (a2 = b2 /\ a3 <= b3))).

Definition lt (x y : float) : Prop :=
  match key (Prim2SF x), key (Prim2SF y) with
  | Some a, Some b => lex_lt a b
  | _, _ => False
  end.

Definition le (x y : float) : Prop :=
  match key (Prim2SF x), key (Prim2SF y) with
  | Some a, Some b => lex_le a b
  | _, _ => False
  end.

End FloatOrder.


(** [res] is [l] with some elements left out, the others in their order. *)
Inductive subseq {A : Type} : list A -> list A -> Prop :=
| subseq_nil : subseq [] []
| subseq_skip x res l : subseq res l -> subseq res (x :: l)
| subseq_take x res l : subseq res l -> subseq (x :: res) (x :: l).

(** What [_handle_missing_values] does to one column. *)
Definition handled (col : list FeatureEmbeddingsGenerator.cell)
  : list FeatureEmbeddingsGenerator.cell :=
  if existsb FeatureEmbeddingsGenerator.isna col
  then FeatureEmbeddingsGenerator.fillna (FeatureEmbeddingsGenerator.median col) col
  else col.

Module RecommendsSpec.
Import MusicRecommender.

(** A recommendation is the row [idx] of the frame with the similarity
    [s], rounded; the row passed the filters of the walk. *)
Definition recommends (self : recommender) (df : dataframe)
    (query_index : nat) (query_artist_name : string)
    (similar_indices : list (nat * score)) (rec : recommendation) : Prop :=
  exists idx s track,
    In (idx, s) similar_indices /\ idx <> query_index /\
    nth_error df idx = Some track /\
    rec = {| rec_track_id := track_id track;
             rec_track_name := track_name track;
             rec_artist_name := artist_name track;
             rec_album_name := album_name track;
             similarity_score := round4 s |} /\
    score_ltb s (get (min_similarity_threshold (config self)) 0%R) = false /\
    (get (exclude_same_artist (config self)) false = true ->
     artist_name track <> query_artist_name).

End RecommendsSpec.

(** Number of missing entries of a list of optional vectors. *)
Definition count_none {A} (l : list (option A)) : nat :=
  length (filter (fun o => match o with None => true | Some _ => false end) l).

(** Descending order of the scores of a ranked list. *)
Definition descending (res : list (nat * score)) : Prop :=
  ordered (fun p p' => score_leb (snd p') (snd p) = true) res.

Module BatchSpec.
Import MusicRecommender BatchRecommendations.

(** The dict after the identifiers [seen]: one entry per identifier seen,
    holding what [get_recommendations] returns for it, and no other
    entry. *)
Definition batch_done (self : recommender) (k : Z) (ty : string)
    (seen : list string) (d : list (string * list recommendation)) : Prop :=
  (forall id, In id seen ->
     exists recs, get_recommendations self (Some id) None None k ty = Ok recs /\
                  dict_get d id = Some recs) /\
  (forall id, dict_get d id <> None -> In id seen).

End BatchSpec.

(** *** Sample data for the worked examples *)

Module Samples.
Import MusicRecommender.

(** A row with the given identifier, name and artist, and no vectors. *)
Definition plain_track (id name artist : string) : track :=
  {| track_id := id; track_name := name; artist_name := artist;
     album_name := ""; combined_embedding := None; text_embedding := None;
     feature_embedding := None |}.

(** A row that has a combined vector only. *)
Definition vector_track (id name artist : string) (v : vec) : track :=
  {| track_id := id; track_name := name; artist_name := artist;
     album_name := ""; combined_embedding := Some v; text_embedding := None;
     feature_embedding := None |}.

(** A recommender with the given metric, configuration and cached frame. *)
Definition service (m : metric) (cfg : config_dict) (df : dataframe)
  : recommender :=
  {| similarity_engine := m; config := cfg; _embeddings_cache := df |}.

(** The configuration passed by the application: no search key is set,
    so fuzzy matching is on with threshold 0.8. *)
Definition default_config : config_dict :=
  {| exclude_same_artist := Some false;
     min_similarity_threshold := Some 0%R;
     fuzzy_matching := None;
     fuzzy_threshold := None |}.

Definition with_threshold (t : float) : config_dict :=
  {| exclude_same_artist := None; min_similarity_threshold := None;
     fuzzy_matching := None; fuzzy_threshold := Some t |}.

End Samples.

(* ================================================================== *)
(** * Properties *)

(* ------------------------------------------------------------------ *)
(** ** Lists ordered by a relation, by position *)

Section Ordered.
Variables (A : Type) (rel : A -> A -> Prop).

Lemma ordered_nil : ordered rel [].
Proof. intros p q x y _ H. destruct p; discriminate H. Qed.

Lemma ordered_cons x l :
  ordered rel (x :: l) <-> (forall y, In y l -> rel x y) /\ ordered rel l.
Proof.
  split.
  - intros H. split.
    + intros y Hy. apply In_nth_error in Hy as [n Hn].
      apply (H 0%nat (S n) x y); [lia | reflexivity | exact Hn].
    + intros p q a b Hpq Ha Hb. apply (H (S p) (S q) a b); [lia | exact Ha | exact Hb].
  - intros [Hx Hl] p q a b Hpq Ha Hb.
    destruct q as [|q]; [lia|]. cbn in Hb.
    destruct p as [|p]; cbn in Ha.
    + injection Ha as <-. apply Hx. eapply nth_error_In; eassumption.
    + apply (Hl p q a b); [lia | assumption | assumption].
Qed.

Lemma ordered_firstn n l : ordered rel l -> ordered rel (firstn n l).
Proof.
  intros H p q x y Hpq Hx Hy.
  assert (Hq : (q < n)%nat).
  { destruct (Nat.ltb_spec q n) as [|Hge]; [assumption|].
    rewrite nth_error_firstn in Hy.
    destruct (Nat.ltb_spec q n); [lia | discriminate]. }
  rewrite nth_error_firstn in Hx, Hy.
  destruct (Nat.ltb_spec p n); [|lia]. destruct (Nat.ltb_spec q n); [|lia].
  exact (H p q x y Hpq Hx Hy).
Qed.

Lemma ordered_rev l : ordered rel l -> forall p q x y, (p < q)%nat ->
  nth_error (rev l) p = Some x -> nth_error (rev l) q = Some y -> rel y x.
Proof.
  intros H p q x y Hpq Hx Hy.
  rewrite nth_error_rev in Hx, Hy.
  destruct (Nat.ltb_spec p (length l)); [|discriminate].
  destruct (Nat.ltb_spec q (length l)); [|discriminate].
  apply (H (length l - S q)%nat (length l - S p)%nat y x);
    [lia | assumption | assumption].
Qed.

Lemma ordered_slice_to k l : ordered rel l -> ordered rel (slice_to l k).
Proof.
  intros H. unfold slice_to. destruct (0 <=? k)%Z; apply ordered_firstn, H.
Qed.

End Ordered.

Lemma ordered_impl {A} (r1 r2 : A -> A -> Prop) l :
  (forall x y, r1 x y -> r2 x y) -> ordered r1 l -> ordered r2 l.
Proof. intros Hr H p q x y Hpq Hx Hy. exact (Hr _ _ (H p q x y Hpq Hx Hy)). Qed.

(* ------------------------------------------------------------------ *)
(** ** The order on scores and the stable argsort *)

Module RankingFacts.
Import Numpy Sklearn SimilarityEngine.
Local Open Scope R_scope.

Lemma score_leb_refl a : score_leb a a = true.
Proof.
  destruct a as [|x]; cbn; [reflexivity|].
  destruct (Rle_dec x x) as [_|H]; [reflexivity | exfalso; apply H; lra].
Qed.

Lemma score_leb_total a b : score_leb a b = false -> score_leb b a = true.
Proof.
  destruct a as [|x], b as [|y]; cbn; try reflexivity; try discriminate.
  destruct (Rle_dec x y); [discriminate|]. intros _.
  destruct (Rle_dec y x); [reflexivity | lra].
Qed.

Lemma score_leb_trans a b c :
  score_leb a b = true -> score_leb b c = true -> score_leb a c = true.
Proof.
  destruct a as [|x], b as [|y], c as [|z]; cbn; try reflexivity; try discriminate.
  destruct (Rle_dec x y); [|discriminate]. destruct (Rle_dec y z); [|discriminate].
  intros _ _. destruct (Rle_dec x z); [reflexivity | lra].
Qed.

Lemma score_leb_antisym a b :
  score_leb a b = true -> score_leb b a = true -> a = b.
Proof.
  destruct a as [|x], b as [|y]; cbn; try reflexivity; try discriminate.
  destruct (Rle_dec x y); [|discriminate]. destruct (Rle_dec y x); [|discriminate].
  intros _ _. f_equal. lra.
Qed.

Lemma score_leb_fin x y : score_leb (Fin x) (Fin y) = true <-> x <= y.
Proof.
  cbn. destruct (Rle_dec x y); split; intros; try reflexivity; try assumption.
  - discriminate.
  - contradiction.
Qed.

Section Argsort.
Variable key : nat -> score.

Lemma insert_perm i l : Permutation (insert key i l) (i :: l).
Proof.
  induction l as [|j l IH]; cbn; [apply Permutation_refl|].
  destruct (score_leb (key i) (key j)); [apply Permutation_refl|].
  eapply Permutation_trans; [apply perm_skip, IH | apply perm_swap].
Qed.

Lemma insert_ordered i l :
  (forall j, In j l -> (i < j)%nat) -> ordered (asc key) l ->
  ordered (asc key) (insert key i l).
Proof.
  induction l as [|j l IH]; intros Hlt Hord; cbn.
  - apply ordered_cons. split; [intros y []| apply ordered_nil].
  - apply ordered_cons in Hord as Hjl. destruct Hjl as [Hj Hl].
    destruct (score_leb (key i) (key j)) eqn:E.
    + apply ordered_cons. split; [|exact Hord].
      intros y Hy. split.
      * destruct Hy as [<-|Hy]; [exact E|].
        eapply score_leb_trans; [exact E | apply (Hj y Hy)].
      * intros _. apply Hlt, Hy.
    + apply ordered_cons. split.
      * intros y Hy.
        apply (Permutation_in _ (insert_perm i l)) in Hy.
        destruct Hy as [<-|Hy]; [|apply Hj, Hy].
        split; [apply score_leb_total, E | rewrite E; discriminate].
      * apply IH; [intros y Hy; apply Hlt; right; exact Hy | exact Hl].
Qed.

Lemma sort_indices_spec l :
  ordered lt l ->
  Permutation (fold_right (insert key) [] l) l /\
  ordered (asc key) (fold_right (insert key) [] l).
Proof.
  induction l as [|i l IH]; intros Hl; cbn.
  - split; [apply Permutation_refl | apply ordered_nil].
  - apply ordered_cons in Hl as [Hi Hl]. destruct (IH Hl) as [Hp Ho]. split.
    + eapply Permutation_trans; [apply insert_perm | apply perm_skip, Hp].
    + apply insert_ordered; [|exact Ho].
      intros j Hj. apply Hi. eapply Permutation_in; eassumption.
Qed.

End Argsort.

Lemma seq_ordered len start : ordered lt (seq start len).
Proof.
  intros p q x y Hpq Hx Hy.
  destruct (Nat.ltb_spec q len) as [Hq|Hq].
  - rewrite nth_error_seq in Hx, Hy.
    destruct (Nat.ltb_spec p len); [|lia]. destruct (Nat.ltb_spec q len); [|lia].
    injection Hx as <-. injection Hy as <-. lia.
  - exfalso.
    assert (nth_error (seq start len) q <> None) as H
      by (rewrite Hy; discriminate).
    apply nth_error_Some in H. rewrite length_seq in H. lia.
Qed.

Lemma argsort_perm a : Permutation (argsort a) (seq 0 (length a)).
Proof. apply sort_indices_spec, seq_ordered. Qed.

Lemma argsort_ordered a : ordered (asc (fun i => nth i a NegInf)) (argsort a).
Proof. apply sort_indices_spec, seq_ordered. Qed.

(** The stable [argsort] is one of the sorts that NumPy may perform. *)
Lemma argsort_sorts : sorts_ascending argsort.
Proof.
  intros a. split; [apply argsort_perm|].
  apply (ordered_impl (asc (fun i => nth i a NegInf))); [|apply argsort_ordered].
  intros i j H. exact (proj1 H).
Qed.

Lemma argsort_length a : length (argsort a) = length a.
Proof.
  rewrite (Permutation_length (argsort_perm a)). apply length_seq.
Qed.

Lemma argsort_in a i : In i (argsort a) <-> (i < length a)%nat.
Proof.
  split; intros H.
  - apply (Permutation_in _ (argsort_perm a)) in H. apply in_seq in H. lia.
  - apply (Permutation_in _ (Permutation_sym (argsort_perm a))). apply in_seq. lia.
Qed.

End RankingFacts.

(* ------------------------------------------------------------------ *)
(** ** find_similar *)

Module FindSimilarFacts.
Import Numpy Sklearn SimilarityEngine RankingFacts.
Local Open Scope R_scope.

Lemma slice_to_length {A} (l : list A) k :
  (0 <= k)%Z -> (Z.of_nat (length (slice_to l k)) <= k)%Z.
Proof.
  intros Hk. unfold slice_to. destruct (Z.leb_spec 0 k); [|lia].
  pose proof (firstn_le_length (Z.to_nat k) l). lia.
Qed.

Lemma firstn_incl {A} n (l : list A) x : In x (firstn n l) -> In x l.
Proof.
  revert n. induction l as [|y l IH]; intros [|n]; cbn; try tauto.
  intros [H|H]; [left; exact H | right; exact (IH n H)].
Qed.

Lemma slice_to_incl {A} (l : list A) k x : In x (slice_to l k) -> In x l.
Proof.
  unfold slice_to. destruct (0 <=? k)%Z; apply firstn_incl.
Qed.

(** What [find_similar] returns, once the metric has been evaluated. *)
Lemma find_similar_inv m q M k ex res :
  find_similar m q M k ex = Ok res ->
  exists sims,
    similarities m q M = Ok sims /\
    res = map (fun idx => (idx, nth idx (exclude (map Fin sims) ex) NegInf))
              (slice_to (rev (argsort (exclude (map Fin sims) ex))) k).
Proof.
  unfold find_similar, find_similar_with.
  destruct (similarities m q M) as [sims|e]; cbn; [|discriminate].
  intros H. injection H as <-. exists sims. split; reflexivity.
Qed.

Lemma assign_length {A} (l : list A) i v : length (assign l i v) = length l.
Proof.
  revert i. induction l as [|x l IH]; intros [|i]; cbn; try reflexivity.
  now rewrite IH.
Qed.

Lemma assign_nth_same {A} (l : list A) i v d :
  (i < length l)%nat -> nth i (assign l i v) d = v.
Proof.
  revert i. induction l as [|x l IH]; intros [|i] H; cbn in *; try lia; try reflexivity.
  apply IH. lia.
Qed.

Lemma assign_nth_other {A} (l : list A) i j v d :
  i <> j -> nth j (assign l i v) d = nth j l d.
Proof.
  revert i j. induction l as [|x l IH]; intros [|i] [|j] H; cbn; try reflexivity; try lia.
  apply IH. lia.
Qed.

Lemma exclude_one_length s idx : length (exclude_one s idx) = length s.
Proof.
  unfold exclude_one. destruct (_ && _)%bool; [apply assign_length | reflexivity].
Qed.

Lemma exclude_one_keeps_neg_inf s idx i :
  nth i s NegInf = NegInf -> nth i (exclude_one s idx) NegInf = NegInf.
Proof.
  intros H. unfold exclude_one. destruct (_ && _)%bool eqn:E; [|exact H].
  destruct (Nat.eq_dec (Z.to_nat idx) i) as [<-|Hne].
  - apply assign_nth_same. apply andb_prop in E as [E0 E].
    apply Z.leb_le in E0. apply Z.ltb_lt in E. lia.
  - rewrite assign_nth_other by exact Hne. exact H.
Qed.

Lemma exclude_all_keeps_neg_inf l s i :
  nth i s NegInf = NegInf -> nth i (fold_left exclude_one l s) NegInf = NegInf.
Proof.
  revert s. induction l as [|idx l IH]; intros s H; cbn; [exact H|].
  apply IH, exclude_one_keeps_neg_inf, H.
Qed.

Lemma exclude_length s ex : length (exclude s ex) = length s.
Proof.
  unfold exclude. destruct ex as [[|idx l]|]; try reflexivity.
  generalize (idx :: l). intros l'. revert s.
  induction l' as [|j l' IH]; intros s; cbn; [reflexivity|].
  rewrite IH. apply exclude_one_length.
Qed.

(** Every in-range excluded index carries [-inf] after the exclusion loop. *)
Lemma exclude_sets_neg_inf s l idx :
  In idx l -> (0 <= idx < Z.of_nat (length s))%Z ->
  nth (Z.to_nat idx) (exclude s (Some l)) NegInf = NegInf.
Proof.
  intros Hin Hr.
  assert (G : forall l s, In idx l -> (0 <= idx < Z.of_nat (length s))%Z ->
            nth (Z.to_nat idx) (fold_left exclude_one l s) NegInf = NegInf).
  { clear. induction l as [|j l IH]; intros s Hin Hr; [destruct Hin|].
    cbn. destruct Hin as [->|Hin].
    - apply exclude_all_keeps_neg_inf. unfold exclude_one.
      destruct (Z.leb_spec 0 idx); [|lia].
      destruct (Z.ltb_spec idx (Z.of_nat (length s))); [|lia]. cbn.
      apply assign_nth_same. lia.
    - apply IH; [exact Hin | rewrite exclude_one_length; exact Hr]. }
  unfold exclude. destruct l as [|j l]; [destruct Hin|]. apply G; assumption.
Qed.

(** Positions that are not excluded keep their similarity. *)
Lemma exclude_one_other s idx i :
  Z.of_nat i <> idx -> nth i (exclude_one s idx) NegInf = nth i s NegInf.
Proof.
  intros Hne. unfold exclude_one. destruct (_ && _)%bool eqn:E; [|reflexivity].
  apply andb_prop in E as [E0 _]. apply Z.leb_le in E0.
  apply assign_nth_other. lia.
Qed.

Lemma exclude_other s ex i :
  (forall l, ex = Some l -> ~ In (Z.of_nat i) l) ->
  nth i (exclude s ex) NegInf = nth i s NegInf.
Proof.
  intros H. unfold exclude. destruct ex as [l|]; [|reflexivity].
  specialize (H l eq_refl).
  assert (G : forall l s, ~ In (Z.of_nat i) l ->
            nth i (fold_left exclude_one l s) NegInf = nth i s NegInf).
  { clear. induction l as [|idx l IH]; intros s Hn; cbn; [reflexivity|].
    rewrite IH by (intros Hin; apply Hn; right; exact Hin).
    apply exclude_one_other. intros Heq. apply Hn. left. now symmetry. }
  destruct l as [|idx l]; [reflexivity | now apply G].
Qed.

(** The pairs of the positions of [a] with their values. *)
Lemma map_nth_seq_combine {A} (a : list A) (d : A) :
  map (fun i => (i, nth i a d)) (seq 0 (length a)) = combine (seq 0 (length a)) a.
Proof.
  assert (G : forall (a : list A) s,
            map (fun i => (i, nth (i - s) a d)) (seq s (length a))
            = combine (seq s (length a)) a).
  { clear. induction a as [|x a IH]; intros s; cbn [length seq map combine];
      [reflexivity|].
    rewrite Nat.sub_diag. cbn [nth]. f_equal. rewrite <- IH.
    apply map_ext_in. intros i Hi. apply in_seq in Hi.
    replace (i - s)%nat with (S (i - S s)) by lia. reflexivity. }
  rewrite <- (G a 0%nat). apply map_ext. intros i. now rewrite Nat.sub_0_r.
Qed.

End FindSimilarFacts.

Import Numpy Sklearn SimilarityEngine RankingFacts FindSimilarFacts.

(** Settles the comparisons of concrete reals met while evaluating the
    ranking on an explicit input. *)
Ltac settle_scores :=
  repeat match goal with
         | |- context [Rle_dec ?a ?b] =>
             destruct (Rle_dec a b); try (exfalso; lra)
         | |- context [Rlt_dec ?a ?b] =>
             destruct (Rlt_dec a b); try (exfalso; lra)
         end.

(** For a non-negative [k], [find_similar] returns at most [k] pairs. *)
Lemma find_similar_length m q M k ex res :
  (0 <= k)%Z -> find_similar m q M k ex = Ok res ->
  (Z.of_nat (length res) <= k)%Z.
Proof.
  intros Hk H. apply find_similar_inv in H as (sims & _ & ->).
  rewrite length_map. apply slice_to_length, Hk.
Qed.

(** An excluded index that is returned all the same carries [-inf]. *)
Lemma find_similar_excluded_neg_inf m q M k l res i s :
  find_similar m q M k (Some l) = Ok res ->
  In (i, s) res -> In (Z.of_nat i) l -> s = NegInf.
Proof.
  intros H Hin Hex. apply find_similar_inv in H as (sims & _ & ->).
  apply in_map_iff in Hin as (idx & Heq & Hidx). injection Heq as -> <-.
  apply slice_to_incl in Hidx. apply in_rev in Hidx. apply argsort_in in Hidx.
  rewrite <- (Nat2Z.id i) at 1. apply exclude_sets_neg_inf; [exact Hex|].
  rewrite exclude_length in *. lia.
Qed.

(** With [k] at least the number of candidates, every index is returned,
    the excluded ones included. *)
Lemma find_similar_large_k_returns_every_index m q M k ex sims i :
  similarities m q M = Ok sims ->
  (Z.of_nat (length sims) <= k)%Z -> (i < length sims)%nat ->
  exists res s, find_similar m q M k ex = Ok res /\ In (i, s) res.
Proof.
  intros Hs Hk Hi. unfold find_similar, find_similar_with. rewrite Hs. cbn.
  eexists _, _. split; [reflexivity|].
  apply in_map_iff. exists i. split; [reflexivity|].
  set (a := exclude (map Fin sims) ex).
  assert (La : length a = length sims).
  { unfold a. now rewrite exclude_length, length_map. }
  unfold slice_to. destruct (Z.leb_spec 0 k); [|lia].
  rewrite firstn_all2 by (rewrite length_rev, argsort_length; lia).
  apply in_rev. rewrite rev_involutive. apply argsort_in. lia.
Qed.

(** C1 (the code at the failing input).  With two candidates, [k = 2] and
    index 0 excluded, [find_similar] returns both indices: the excluded
    index 0 is in the result, with score [-inf].  Excluded entries are only
    moved to the end of the ranking, they are not removed from it. *)
Theorem find_similar_returns_excluded_index :
  find_similar dot [1; 0]%R [[1; 0]; [0; 1]]%R 2 (Some [0%Z])
  = Ok [(1%nat, Fin 0); (0%nat, NegInf)].
Proof.
  unfold find_similar, find_similar_with, similarities. cbn. unfold Pos.to_nat. cbn.
  do 4 f_equal. lra.
Qed.

(** C2 (counterexample).  Two identical candidates tie exactly; the result
    lists index 1 before index 0, against the tie rule as stated.  (The
    two keys are left in index order by the sort, as NumPy leaves them on
    an array of two, and the ranking is the reversed order.) *)
Lemma find_similar_tie_not_smaller_index_first :
  exists res,
    find_similar dot [1; 0]%R [[1; 0]; [1; 0]]%R 2 None = Ok res /\
    ~ ties_smaller_index_first res.
Proof.
  exists [(1%nat, Fin 1); (0%nat, Fin 1)]. split.
  - unfold find_similar, find_similar_with, similarities. cbn. settle_scores.
    unfold Pos.to_nat. cbn. repeat f_equal; lra.
  - intros H.
    specialize (H 0%nat 1%nat 1%nat (Fin 1) 0%nat (Fin 1)).
    cbn in H. specialize (H ltac:(lia) eq_refl eq_refl eq_refl). lia.
Qed.

(** C2 (amended).  The pairs returned by [find_similar] are in descending
    order of score.  This holds whichever ascending order [np.argsort]
    computes, that is for every sort that returns a permutation of the
    indices along which the scores ascend; nothing is stated of two
    candidates with exactly equal scores, among which NumPy's default sort
    fixes no order. *)
Theorem find_similar_descending_any_argsort
    (argsort : list score -> list nat) m q M k ex res :
  sorts_ascending argsort ->
  find_similar_with argsort m q M k ex = Ok res ->
  forall p p' i s i' s', (p < p')%nat ->
    nth_error res p = Some (i, s) -> nth_error res p' = Some (i', s') ->
    score_leb s' s = true.
Proof.
  intros Hsort H p p' i s i' s' Hlt Hp Hp'.
  unfold find_similar_with in H.
  destruct (similarities m q M) as [sims|e]; cbn in H; [|discriminate].
  injection H as <-.
  set (a := exclude (map Fin sims) ex) in *.
  rewrite nth_error_map in Hp, Hp'.
  destruct (nth_error _ p) as [j|] eqn:Ej; [|discriminate].
  destruct (nth_error _ p') as [j'|] eqn:Ej'; [|discriminate].
  cbn in Hp, Hp'. injection Hp as -> <-. injection Hp' as -> <-.
  assert (Hord : ordered (fun x y =>
                   score_leb (nth y a NegInf) (nth x a NegInf) = true)
                   (slice_to (rev (argsort a)) k)).
  { apply ordered_slice_to. intros u v x y Huv Hx Hy.
    exact (ordered_rev _ _ _ (proj2 (Hsort a)) u v x y Huv Hx Hy). }
  exact (Hord p p' i i' Hlt Ej Ej').
Qed.

Lemma find_similar_descending_any_argsort_witness :
  score_leb (Fin 0) (Fin 1) = true.
Proof.
  refine (@find_similar_descending_any_argsort
            argsort dot [1; 0]%R [[0; 1]; [1; 0]]%R 2 None
            [(1%nat, Fin 1); (0%nat, Fin 0)] argsort_sorts _
            0%nat 1%nat 1%nat (Fin 1) 0%nat (Fin 0) _ eq_refl eq_refl).
  - unfold find_similar_with, similarities. cbn. settle_scores.
    unfold Pos.to_nat. cbn. repeat f_equal; lra.
  - lia.
Defined.

(* ------------------------------------------------------------------ *)
(** ** One formula per metric, three entry points *)

Module MetricFacts.
Local Open Scope R_scope.

Lemma inner_comm a b : inner a b = inner b a.
Proof.
  revert b. induction a as [|x a IH]; intros [|y b]; cbn; try reflexivity.
  rewrite IH. ring.
Qed.

Lemma has_cols_nth d X i row :
  has_cols d X = true -> nth_error X i = Some row -> length row = d.
Proof.
  unfold has_cols. intros H Hi. apply nth_error_In in Hi.
  rewrite forallb_forall in H. apply Nat.eqb_eq, H, Hi.
Qed.

Lemma has_cols_single d (row : vec) : length row = d -> has_cols d [row] = true.
Proof. intros <-. cbn. now rewrite Nat.eqb_refl. Qed.

Lemma has_cols_change d d' X i row :
  has_cols d X = true -> nth_error X i = Some row -> length row = d' ->
  has_cols d' X = true.
Proof.
  intros H Hi Hl. rewrite <- Hl, (has_cols_nth _ _ _ _ H Hi). exact H.
Qed.

Lemma check_pairwise_arrays_ok X Y :
  check_pairwise_arrays X Y = Ok tt ->
  exists d, (0 < d)%nat /\ has_cols d X = true /\ has_cols d Y = true.
Proof.
  unfold check_pairwise_arrays.
  destruct X as [|x X]; [discriminate|]. destruct Y as [|y Y]; [discriminate|].
  destruct (Nat.ltb_spec 0 (length x)); cbn [andb]; [|discriminate].
  destruct (has_cols (length x) (x :: X)) eqn:EX; cbn [andb]; [|discriminate].
  destruct (has_cols (length x) (y :: Y)) eqn:EY; [|discriminate].
  intros _. exists (length x). auto.
Qed.

Lemma check_pairwise_arrays_intro d (X Y : matrix) i j (x y : vec) :
  (0 < d)%nat -> has_cols d X = true -> has_cols d Y = true ->
  nth_error X i = Some x -> nth_error Y j = Some y ->
  check_pairwise_arrays X Y = Ok tt.
Proof.
  intros Hd HX HY Hx Hy. unfold check_pairwise_arrays.
  destruct X as [|x0 X]; [destruct i; discriminate|].
  destruct Y as [|y0 Y]; [destruct j; discriminate|].
  assert (length x0 = d) as -> by (apply (@has_cols_nth _ _ 0%nat _ HX); reflexivity).
  rewrite HX, HY. destruct (Nat.ltb_spec 0 d); [reflexivity | lia].
Qed.

Lemma bind_check_inv {A} (c : pyresult unit) (v B : A) :
  (c ;;; Ok v) = Ok B -> c = Ok tt /\ B = v.
Proof.
  destruct c as [[]|e]; cbn; [|discriminate]. intros H. injection H as <-. auto.
Qed.

Lemma dot_T_inv X Y B i x :
  dot_T X Y = Ok B -> nth_error X i = Some x ->
  has_cols (length x) X = true /\ has_cols (length x) Y = true /\
  B = map (fun x => map (fun y => inner x y) Y) X.
Proof.
  unfold dot_T. intros H Hi. destruct X as [|x0 X]; [destruct i; discriminate|].
  destruct (has_cols (length x0) (x0 :: X)) eqn:EX; cbn [andb] in H; [|discriminate].
  destruct (has_cols (length x0) Y) eqn:EY; [|discriminate].
  injection H as <-.
  assert (length x = length x0) as -> by exact (has_cols_nth _ _ _ _ EX Hi).
  auto.
Qed.

Lemma dot_T_intro d X Y :
  has_cols d X = true -> has_cols d Y = true ->
  dot_T X Y = Ok (map (fun x => map (fun y => inner x y) Y) X).
Proof.
  intros HX HY. unfold dot_T. destruct X as [|x0 X]; [reflexivity|].
  assert (length x0 = d) as -> by (apply (@has_cols_nth _ _ 0%nat _ HX); reflexivity).
  now rewrite HX, HY.
Qed.

Lemma entry_map2 {f : vec -> vec -> R} X Y i j x y :
  nth_error X i = Some x -> nth_error Y j = Some y ->
  entry (map (fun x => map (fun y => f x y) Y) X) i j = Some (f x y).
Proof.
  intros Hx Hy. unfold entry.
  rewrite nth_error_map, Hx. cbn. now rewrite nth_error_map, Hy.
Qed.

(** Whenever [batch_similarity] computes, its entries are the pairwise
    similarities. *)
Lemma batch_similarity_entry m Q T B i j q t :
  batch_similarity m Q T = Ok B ->
  nth_error Q i = Some q -> nth_error T j = Some t ->
  entry B i j = Some (pair_similarity m q t) /\
  exists d, (m <> dot -> 0 < d)%nat /\ has_cols d Q = true /\ has_cols d T = true.
Proof.
  intros H Hq Ht. destruct m; cbn in H.
  - apply bind_check_inv in H as [Hc ->]. split.
    + apply (entry_map2
               (f := fun x y => inner (normalize_row x) (normalize_row y)));
        assumption.
    + apply check_pairwise_arrays_ok in Hc as (d & ? & ? & ?). exists d. auto.
  - destruct (euclidean_distances Q T) as [D|e] eqn:E; cbn in H; [|discriminate].
    injection H as <-. apply bind_check_inv in E as [Hc ->]. split.
    + unfold entry. rewrite !nth_error_map, Hq. cbn.
      rewrite !nth_error_map, Ht. reflexivity.
    + apply check_pairwise_arrays_ok in Hc as (d & ? & ? & ?). exists d. auto.
  - destruct (dot_T_inv _ _ _ _ _ H Hq) as (HQ & HT & ->). split.
    + apply (entry_map2 (f := inner)); assumption.
    + exists (length q). split; [congruence | auto].
Qed.

(** Row i of the matrix of [batch_similarity]. *)
Lemma batch_similarity_row m (Q T B : matrix) i (q : vec) :
  batch_similarity m Q T = Ok B -> nth_error Q i = Some q ->
  nth_error B i = Some (map (pair_similarity m q) T).
Proof.
  intros H Hq. destruct m; cbn in H.
  - apply bind_check_inv in H as [_ ->]. now rewrite nth_error_map, Hq.
  - destruct (euclidean_distances Q T) as [D|e] eqn:E; cbn in H; [|discriminate].
    injection H as <-. apply bind_check_inv in E as [_ ->].
    rewrite !nth_error_map, Hq. cbn. now rewrite map_map.
  - destruct (dot_T_inv _ _ _ _ _ H Hq) as (_ & _ & ->).
    now rewrite nth_error_map, Hq.
Qed.

Lemma compute_similarity_pair m d (q t : vec) :
  (m <> dot -> 0 < d)%nat -> length q = d -> length t = d ->
  compute_similarity m q t = Ok (pair_similarity m q t).
Proof.
  intros Hd Hq Ht. unfold compute_similarity.
  assert (Hc : m <> dot -> check_pairwise_arrays [q] [t] = Ok tt).
  { intros Hm. apply (@check_pairwise_arrays_intro d _ _ 0%nat 0%nat q t);
      auto using has_cols_single. }
  destruct m; cbv zeta.
  - unfold cosine_similarity. rewrite Hc by discriminate. reflexivity.
  - unfold euclidean_distances. rewrite Hc by discriminate. reflexivity.
  - rewrite (@dot_T_intro d) by auto using has_cols_single. reflexivity.
Qed.

Lemma similarities_pair m d (q : vec) (T : matrix) j (t : vec) :
  (m <> dot -> 0 < d)%nat -> length q = d -> has_cols d T = true ->
  nth_error T j = Some t ->
  similarities m q T = Ok (map (pair_similarity m q) T).
Proof.
  intros Hd Hq HT Ht. unfold similarities.
  assert (Hc : m <> dot -> check_pairwise_arrays [q] T = Ok tt).
  { intros Hm. apply (@check_pairwise_arrays_intro d _ _ 0%nat j q t);
      auto using has_cols_single. }
  destruct m; cbv zeta.
  - unfold cosine_similarity. rewrite Hc by discriminate. reflexivity.
  - unfold euclidean_distances. rewrite Hc by discriminate. cbn.
    now rewrite map_map.
  - rewrite (@dot_T_intro d) by auto using has_cols_single. cbn. f_equal.
    clear. induction T as [|t T IH]; cbn; [reflexivity|].
    rewrite IH. f_equal. apply inner_comm.
Qed.

End MetricFacts.

Import MetricFacts.

(** C9.  Metric consistency, for every metric: whenever [batch_similarity]
    computes a matrix for [Q] and [T], its entry (i, j) is the value of
    [compute_similarity] on row i of [Q] and row j of [T], and it is the
    score of candidate j in [find_similar] queried with [Q[i]] against [T]:
    whatever [k] and whichever other candidates are excluded, candidate j
    is reported with no other score, and it is reported as soon as [k]
    reaches the number of candidates.  Without exclusions and with such a
    [k], the result of [find_similar] is row i of the matrix, each entry
    paired with its column, up to order.  Floats are idealised by reals. *)
Theorem metric_consistency m (Q T B : matrix) i j (q t : vec) :
  batch_similarity m Q T = Ok B ->
  nth_error Q i = Some q -> nth_error T j = Some t ->
  exists s row,
    entry B i j = Some s /\ nth_error B i = Some row /\
    compute_similarity m q t = Ok s /\
    (forall k ex, (forall l, ex = Some l -> ~ In (Z.of_nat j) l) ->
       exists res,
         find_similar m q T k ex = Ok res /\
         (forall sc, In (j, sc) res -> sc = Fin s) /\
         ((Z.of_nat (length T) <= k)%Z -> In (j, Fin s) res)) /\
    (forall k, (Z.of_nat (length T) <= k)%Z ->
       exists res,
         find_similar m q T k None = Ok res /\
         Permutation res (combine (seq 0 (length T)) (map Fin row))).
Proof.
  intros HB Hq Ht.
  destruct (batch_similarity_entry m Q T B i j q t HB Hq Ht)
    as (He & d & Hd & HQ & HT).
  pose proof (has_cols_nth d Q i q HQ Hq) as Lq.
  pose proof (has_cols_nth d T j t HT Ht) as Lt.
  pose proof (similarities_pair m d q T j t Hd Lq HT Ht) as Hs.
  assert (Hj : (j < length T)%nat).
  { apply nth_error_Some. rewrite Ht. discriminate. }
  set (sims := map (pair_similarity m q) T) in *.
  assert (Hnth : nth j (map Fin sims) NegInf = Fin (pair_similarity m q t)).
  { apply nth_error_nth. unfold sims. now rewrite !nth_error_map, Ht. }
  assert (Ls : length (map Fin sims) = length T)
    by (unfold sims; now rewrite !length_map).
  exists (pair_similarity m q t), sims.
  split; [exact He|]. split; [exact (batch_similarity_row m Q T B i q HB Hq)|].
  split; [exact (compute_similarity_pair m d q t Hd Lq Lt)|]. split.
  - intros k ex Hex. unfold find_similar, find_similar_with. rewrite Hs. cbn.
    eexists. split; [reflexivity|].
    assert (Hsc : nth j (exclude (map Fin sims) ex) NegInf
                  = Fin (pair_similarity m q t))
      by (rewrite (exclude_other _ _ _ Hex); exact Hnth).
    split.
    + intros sc Hin. apply in_map_iff in Hin as (idx & Heq & _).
      injection Heq as -> <-. exact Hsc.
    + intros Hk. apply in_map_iff. exists j. split; [now rewrite Hsc|].
      unfold slice_to. destruct (Z.leb_spec 0 k); [|lia].
      rewrite firstn_all2
        by (rewrite length_rev, argsort_length, exclude_length, Ls; lia).
      apply in_rev. rewrite rev_involutive. apply argsort_in.
      rewrite exclude_length, Ls. exact Hj.
  - intros k Hk. unfold find_similar, find_similar_with. rewrite Hs.
    cbn [bind exclude]. eexists. split; [reflexivity|].
    set (a := map Fin sims) in *.
    unfold slice_to. destruct (Z.leb_spec 0 k); [|lia].
    rewrite firstn_all2 by (rewrite length_rev, argsort_length; lia).
    rewrite <- Ls, <- map_nth_seq_combine with (d := NegInf).
    apply Permutation_map.
    eapply Permutation_trans;
      [apply Permutation_sym, Permutation_rev | apply argsort_perm].
Qed.

Lemma metric_consistency_witness :
  exists s row,
    entry [[1 * 0 + (0 * 1 + 0)]]%R 0 0 = Some s /\
    nth_error [[1 * 0 + (0 * 1 + 0)]]%R 0 = Some row /\
    compute_similarity dot [1; 0]%R [0; 1]%R = Ok s /\
    (forall k ex, (forall l, ex = Some l -> ~ In (Z.of_nat 0) l) ->
       exists res,
         find_similar dot [1; 0]%R [[0; 1]]%R k ex = Ok res /\
         (forall sc, In (0%nat, sc) res -> sc = Fin s) /\
         ((Z.of_nat (length [[0; 1]]%R) <= k)%Z -> In (0%nat, Fin s) res)) /\
    (forall k, (Z.of_nat (length [[0; 1]]%R) <= k)%Z ->
       exists res,
         find_similar dot [1; 0]%R [[0; 1]]%R k None = Ok res /\
         Permutation res (combine (seq 0 (length [[0; 1]]%R)) (map Fin row))).
Proof.
  apply (metric_consistency dot [[1; 0]]%R [[0; 1]]%R
           [[1 * 0 + (0 * 1 + 0)]]%R 0 0 [1; 0]%R [0; 1]%R);
    reflexivity.
Defined.

(* ------------------------------------------------------------------ *)
(** ** Embedding fusion *)

Module CombinerFacts.
Import EmbeddingCombiner.
Local Open Scope R_scope.

Lemma inner_self_nonneg v : 0 <= inner v v.
Proof.
  induction v as [|x v IH]; cbn; [lra|]. pose proof (Rle_0_sqr x) as H.
  unfold Rsqr in H. lra.
Qed.

Lemma norm_nonneg v : 0 <= norm v.
Proof. apply sqrt_pos. Qed.

Lemma norm_sqr v : norm v * norm v = inner v v.
Proof. apply sqrt_sqrt, inner_self_nonneg. Qed.

Lemma inner_divide a b c :
  c <> 0 -> inner (divide a c) (divide b c) = inner a b / (c * c).
Proof.
  intros Hc. unfold divide. revert b.
  induction a as [|x a IH]; intros [|y b]; cbn; try (field; exact Hc).
  rewrite IH. field. exact Hc.
Qed.

Lemma inner_self_zero v : inner v v = 0 <-> Forall (fun x => x = 0) v.
Proof.
  induction v as [|x v IH]; cbn.
  - split; [constructor | reflexivity].
  - pose proof (inner_self_nonneg v) as Hv. pose proof (Rle_0_sqr x) as Hx.
    unfold Rsqr in Hx. split.
    + intros H. constructor; [nra | apply IH; nra].
    + intros H. inversion H as [|? ? H0 Hrest]; subst.
      apply IH in Hrest. rewrite Hrest. ring.
Qed.

(** The norm vanishes exactly on the zero vectors. *)
Lemma norm_zero_iff v : norm v = 0 <-> Forall (fun x => x = 0) v.
Proof.
  rewrite <- inner_self_zero. unfold norm. split.
  - apply sqrt_eq_0, inner_self_nonneg.
  - intros ->. apply sqrt_0.
Qed.

Lemma divide_length v c : length (divide v c) = length v.
Proof. apply length_map. Qed.

Lemma scale_length v c : length (scale v c) = length v.
Proof. apply length_map. Qed.

Lemma _normalize_vector_length v : length (_normalize_vector v) = length v.
Proof.
  unfold _normalize_vector. destruct (Req_dec_T (norm v) 0);
    [reflexivity | apply divide_length].
Qed.

(** [_normalize_vector]: the zero-norm guard returns the vector unchanged,
    any other vector comes back with norm 1. *)
Lemma _normalize_vector_zero v : norm v = 0 -> _normalize_vector v = v.
Proof.
  intros H. unfold _normalize_vector.
  destruct (Req_dec_T (norm v) 0); [reflexivity | contradiction].
Qed.

Lemma _normalize_vector_unit v : norm v <> 0 -> norm (_normalize_vector v) = 1.
Proof.
  intros H. unfold _normalize_vector.
  destruct (Req_dec_T (norm v) 0); [contradiction|].
  unfold norm at 1. rewrite inner_divide by exact H.
  rewrite norm_sqr. rewrite <- norm_sqr.
  replace (norm v * norm v / (norm v * norm v)) with 1 by (field; exact H).
  apply sqrt_1.
Qed.

Lemma weighted_concat_length self tv fv :
  length (weighted_concat self tv fv) = (length tv + length fv)%nat.
Proof.
  unfold weighted_concat. rewrite length_app, !scale_length.
  destruct (normalize self); [now rewrite !_normalize_vector_length | reflexivity].
Qed.

End CombinerFacts.

Import EmbeddingCombiner CombinerFacts.

(** C4 (counterexample).  With normalisation on and the default weights,
    two zero vectors combine into the zero vector: its norm is 0, not 1. *)
Lemma combine_zero_vectors_norm_not_one :
  exists v,
    combine_row {| text_weight := 7 / 10; features_weight := 3 / 10;
                   normalize := true |}
                {| text_embedding := Some [0%R];
                   feature_embedding := Some [0%R] |} = Some v /\
    length v = 2%nat /\ norm v <> 1%R.
Proof.
  assert (Hz : norm [0%R] = 0%R).
  { apply norm_zero_iff. repeat constructor. }
  assert (Hc : norm [(0 * (7 / 10))%R; (0 * (3 / 10))%R] = 0%R).
  { apply norm_zero_iff. repeat constructor; lra. }
  exists [(0 * (7 / 10))%R; (0 * (3 / 10))%R]. split; [|split].
  - unfold combine_row, weighted_concat. cbn.
    rewrite (_normalize_vector_zero [0%R] Hz). cbn.
    now rewrite (_normalize_vector_zero _ Hc).
  - reflexivity.
  - rewrite Hc. lra.
Qed.

(** C4 (amended).  With the normalize flag set, two present vectors [tv]
    and [fv] combine, for any weights, into a vector of dimension
    [len(tv) + len(fv)]; its L2 norm is 1 whenever the weighted
    concatenation is not the zero vector, and otherwise the (zero)
    concatenation is returned unchanged. *)
Theorem combine_normalized_dimension_and_norm self tv fv :
  normalize self = true ->
  exists v,
    combine_row self {| text_embedding := Some tv;
                        feature_embedding := Some fv |} = Some v /\
    length v = (length tv + length fv)%nat /\
    (norm (weighted_concat self tv fv) <> 0%R -> norm v = 1%R) /\
    (norm (weighted_concat self tv fv) = 0%R -> v = weighted_concat self tv fv).
Proof.
  intros Hn. unfold combine_row. cbn. rewrite Hn.
  eexists. split; [reflexivity|]. split; [|split].
  - rewrite _normalize_vector_length. apply weighted_concat_length.
  - apply _normalize_vector_unit.
  - apply _normalize_vector_zero.
Qed.

Lemma combine_normalized_dimension_and_norm_witness :
  exists v,
    combine_row {| text_weight := 1; features_weight := 0; normalize := true |}
                {| text_embedding := Some [1%R];
                   feature_embedding := Some [0%R] |} = Some v /\
    length v = 2%nat.
Proof.
  destruct (combine_normalized_dimension_and_norm
              {| text_weight := 1; features_weight := 0; normalize := true |}
              [1%R] [0%R] eq_refl) as (v & Hv & Hl & _).
  exists v. split; [exact Hv | exact Hl].
Defined.

(** C8.  Absence propagates through fusion: for a record whose text
    vector or feature vector is missing, the combined vector is missing,
    whatever the weights and the normalize flag; this is the value stored
    for the record in the [combined_embedding] column. *)
Theorem combine_missing_propagates self df i r :
  nth_error (records df) i = Some r ->
  text_embedding r = None \/ feature_embedding r = None ->
  combine_row self r = None /\
  forall out, combined_embedding (combine_embeddings self df) = Some out ->
              nth_error out i = Some None.
Proof.
  intros Hi Hmiss.
  assert (Hrow : combine_row self r = None).
  { unfold combine_row. destruct Hmiss as [-> | ->]; [reflexivity|].
    destruct (text_embedding r); reflexivity. }
  split; [exact Hrow|].
  intros out. unfold combine_embeddings.
  destruct (records df) as [|r0 rs] eqn:E; [discriminate|].
  destruct (negb (has_text_embedding df) || negb (has_feature_embedding df));
    [discriminate|].
  cbn [combined_embedding]. intros H. injection H as <-.
  change (nth_error (map (combine_row self) (r0 :: rs)) i = Some None).
  now rewrite nth_error_map, Hi, <- Hrow.
Qed.

Lemma combine_missing_propagates_witness :
  combine_row {| text_weight := 7 / 10; features_weight := 3 / 10;
                 normalize := true |}
              {| text_embedding := None; feature_embedding := Some [1%R] |}
  = None.
Proof.
  apply (combine_missing_propagates
           {| text_weight := 7 / 10; features_weight := 3 / 10; normalize := true |}
           {| has_text_embedding := true; has_feature_embedding := true;
              records := [ {| text_embedding := None;
                              feature_embedding := Some [1%R] |} ] |}
           0 {| text_embedding := None; feature_embedding := Some [1%R] |}
           eq_refl (or_introl eq_refl)).
Defined.

(* ------------------------------------------------------------------ *)
(** ** Missing-value imputation *)

Module ImputationFacts.
Import FeatureEmbeddingsGenerator.
Local Open Scope Q_scope.

Lemma insert_value_length x l : length (insert_value x l) = S (length l).
Proof.
  induction l as [|y l IH]; cbn; [reflexivity|].
  destruct (Qle_bool x y); cbn; [reflexivity | now rewrite IH].
Qed.

Lemma sort_values_length l : length (sort_values l) = length l.
Proof.
  induction l as [|x l IH]; cbn; [reflexivity|].
  rewrite insert_value_length. f_equal. exact IH.
Qed.

Lemma observed_nil_iff col : observed col = [] <-> forallb isna col = true.
Proof.
  induction col as [|[x|] col IH]; cbn; [tauto | | exact IH].
  split; discriminate.
Qed.

(** The median is NaN exactly when the column holds no number. *)
Lemma median_none_iff col : median col = None <-> forallb isna col = true.
Proof.
  rewrite <- observed_nil_iff. unfold median.
  rewrite sort_values_length.
  destruct (observed col) as [|x l]; cbn [length Nat.eqb].
  - tauto.
  - destruct (Nat.odd (S (length l))); split; discriminate.
Qed.

Lemma fillna_some v col :
  fillna (Some v) col =
  map (fun c => match c with None => Some v | Some _ => c end) col.
Proof. reflexivity. Qed.

(** A column with at least one number comes out without NaN: its numbers
    are kept and its NaN cells hold the median of its numbers. *)
Lemma _handle_missing_values_column name col :
  forallb isna col = false ->
  exists m, median col = Some m /\
    _handle_missing_values [(name, col)] =
    [(name, map (fun c => match c with None => Some m | Some _ => c end) col)].
Proof.
  intros H. destruct (median col) as [m|] eqn:E.
  - exists m. split; [reflexivity|]. cbn. rewrite E.
    destruct (existsb isna col) eqn:Ex; [reflexivity|].
    do 2 f_equal. clear -Ex. induction col as [|[x|] col IH]; cbn in *;
      [reflexivity | | discriminate].
    f_equal. apply IH, Ex.
  - apply median_none_iff in E. congruence.
Qed.

End ImputationFacts.

Import FeatureEmbeddingsGenerator ImputationFacts.

(** C6 (the code at the failing input).  A column that is entirely
    missing has no median (NaN), and filling with NaN changes nothing: the
    column reaches the scaler still entirely missing, while the other
    column gets its median 2 in the missing cell. *)
Theorem handle_missing_values_keeps_all_missing_column :
  scaler_input
    [("popularity"%string, [Some 1; None; Some 3; Some 2]);
     ("tempo"%string, [None; None; None; None])]
    ["popularity"%string; "tempo"%string]
  = Some [("popularity"%string, [Some 1; Some 2; Some 3; Some 2]);
          ("tempo"%string, [None; None; None; None])].
Proof. vm_compute. reflexivity. Qed.

(* ------------------------------------------------------------------ *)
(** ** The similarity ratio of two strings *)

Module DifflibFacts.
Import Difflib.
Local Open Scope nat_scope.

Lemma common_prefix_le a b :
  common_prefix a b <= length a /\ common_prefix a b <= length b.
Proof.
  revert b. induction a as [|x a IH]; intros [|y b]; cbn; try lia.
  destruct (Ascii.eqb x y); [|lia]. destruct (IH b). lia.
Qed.

Lemma scan_b_fits la lb a b i j best :
  i + length a = la -> j + length b = lb -> fits la lb best ->
  fits la lb (scan_b a b i j best).
Proof.
  revert j best. induction b as [|y b IH]; intros j best Ha Hb Hbest; cbn [scan_b].
  - exact Hbest.
  - apply IH; [exact Ha | cbn in Hb; lia |].
    destruct (Nat.ltb (size best) (common_prefix a (y :: b))); [|exact Hbest].
    destruct (common_prefix_le a (y :: b)). unfold fits. cbn in *. lia.
Qed.

Lemma scan_a_fits la lb a b i best :
  i + length a = la -> length b = lb -> fits la lb best ->
  fits la lb (scan_a a b i best).
Proof.
  revert i best. induction a as [|x a IH]; intros i best Ha Hb Hbest; cbn [scan_a].
  - exact Hbest.
  - apply IH; [cbn in Ha; lia | exact Hb |].
    apply scan_b_fits; [exact Ha | lia | exact Hbest].
Qed.

Lemma find_longest_match_fits a b :
  fits (length a) (length b) (find_longest_match a b).
Proof.
  apply scan_a_fits; [reflexivity | reflexivity | unfold fits; cbn; lia].
Qed.


(** Any fuel of at least [length a] gives the same total. *)
Lemma matching_size_fuel f1 f2 a b :
  length a <= f1 -> length a <= f2 ->
  matching_size f1 a b = matching_size f2 a b.
Proof.
  revert f2 a b. induction f1 as [|f1 IH]; intros f2 a b H1 H2.
  - destruct a; [|cbn in H1; lia]. destruct f2; reflexivity.
  - destruct f2 as [|f2].
    + destruct a; [|cbn in H2; lia]. reflexivity.
    + cbn [matching_size].
      pose proof (find_longest_match_fits a b) as Hf.
      destruct (find_longest_match a b) as [[i j] k]. unfold fits in Hf. cbn in Hf.
      destruct (Nat.eqb_spec k 0) as [|Hk]; [reflexivity|].
      f_equal; [f_equal|]; apply IH;
        rewrite ?length_firstn, ?length_skipn; lia.
Qed.





End DifflibFacts.

Import Str Difflib DifflibFacts.

(** The two worked ratios of the difflib documentation for "tide" and
    "diet", and the ratio of the fuzzy example of the specification. *)
Example ratio_tide_diet : ratio "tide" "diet" = 0.25%float.
Proof. vm_compute. reflexivity. Qed.

Example ratio_diet_tide : ratio "diet" "tide" = 0.5%float.
Proof. vm_compute. reflexivity. Qed.

Example ratio_mr_brightside :
  ratio (lower "mr brightside") (lower "Mr. Brightside") = (26 / 27)%float.
Proof. vm_compute. reflexivity. Qed.

(* ------------------------------------------------------------------ *)
(** ** The order of float64 values *)

Module FloatOrderFacts.
Import FloatOrder.
Local Open Scope Z_scope.

Ltac compare_cases :=
  repeat match goal with
         | |- context [Z.compare ?a ?b] =>
             destruct (Z.compare_spec a b)
         | |- context [Pos.compare_cont Eq ?a ?b] =>
             change (Pos.compare_cont Eq a b) with (Pos.compare a b);
             destruct (Pos.compare_spec a b)
         end.

Lemma SFltb_key x y :
  SFltb x y = true <->
  match key x, key y with Some a, Some b => lex_lt a b | _, _ => False end.
Proof.
  unfold SFltb, SFcompare.
  destruct x as [[]|[]| |[] m1 e1], y as [[]|[]| |[] m2 e2]; cbn [key lex_lt];
    compare_cases; cbn; split; intros Hc; try discriminate Hc;
    try reflexivity; try tauto; try lia.
Qed.

Lemma SFleb_key x y :
  SFleb x y = true <->
  match key x, key y with Some a, Some b => lex_le a b | _, _ => False end.
Proof.
  unfold SFleb, SFcompare.
  destruct x as [[]|[]| |[] m1 e1], y as [[]|[]| |[] m2 e2]; cbn [key lex_le];
    compare_cases; cbn; split; intros Hc; try discriminate Hc;
    try reflexivity; try tauto; try lia.
Qed.

(** The IEEE 754 comparisons of [PrimFloat] are this order. *)
Lemma ltb_lt x y : (x <? y)%float = true <-> lt x y.
Proof. rewrite FloatAxioms.ltb_spec. apply SFltb_key. Qed.

Lemma leb_le x y : (x <=? y)%float = true <-> le x y.
Proof. rewrite FloatAxioms.leb_spec. apply SFleb_key. Qed.

Lemma ltb_false x y : (x <? y)%float = false <-> ~ lt x y.
Proof. rewrite <- ltb_lt. symmetry. apply not_true_iff_false. Qed.

Lemma leb_false x y : (x <=? y)%float = false <-> ~ le x y.
Proof. rewrite <- leb_le. symmetry. apply not_true_iff_false. Qed.

Ltac order :=
  unfold lt, le, lex_lt, lex_le in *;
  repeat match goal with
         | |- context [key ?f] => destruct (key f) as [[[? ?] ?]|]
         | H : context [key ?f] |- _ => destruct (key f) as [[[? ?] ?]|]
         end;
  try tauto; try lia.

Lemma lt_le_trans x y z : lt x y -> le y z -> lt x z.
Proof. order. Qed.

Lemma le_lt_trans x y z : le x y -> lt y z -> lt x z.
Proof. order. Qed.

Lemma le_trans x y z : le x y -> le y z -> le x z.
Proof. order. Qed.

Lemma lt_trans x y z : lt x y -> lt y z -> lt x z.
Proof. order. Qed.

Lemma lt_le x y : lt x y -> le x y.
Proof. order. Qed.

Lemma lt_not_le x y : lt x y -> ~ le y x.
Proof. order. Qed.

End FloatOrderFacts.

(* ------------------------------------------------------------------ *)
(** ** Track resolution *)

Module ResolutionFacts.
Import MusicRecommender FloatOrder FloatOrderFacts.
Local Open Scope float_scope.

Section FuzzyScan.
Variables (lower : string -> string) (threshold : float).
Variables (name : string) (artist : option string).

Local Abbreviation score :=
  (combined_score_with lower name artist) (only parsing).
Local Abbreviation scanned :=
  (scanned lower threshold name artist) (only parsing).

Lemma fuzzy_step_scanned seen state row :
  scanned seen state ->
  scanned (seen ++ [row])
          (fuzzy_step_with lower threshold name artist state row).
Proof.
  destruct state as [bm bs]. unfold scanned, fuzzy_step_with.
  cbn [fst snd]. cbv zeta. intros Inv.
  destruct (bs <? score row) eqn:E1; cbn [andb];
    [destruct (threshold <=? score row) eqn:E2|]; cbn [fst snd].
  - (* accepted: the row becomes the best match *)
    apply ltb_lt in E1. apply leb_le in E2.
    destruct bm as [best|].
    + destruct Inv as (-> & Ht & Hp & l1 & l2 & -> & H1 & H2).
      apply ltb_lt in Hp.
      split; [reflexivity|]. split; [apply leb_le, E2|].
      split; [apply ltb_lt; eapply lt_trans; eassumption|].
      exists (l1 ++ best :: l2), []. split; [reflexivity|].
      split; [|intros r []].
      intros r Hr. apply leb_false. intros Hle.
      apply in_app_or in Hr as [Hr|[<-|Hr]].
      * specialize (H1 r Hr). apply leb_false in H1. apply H1.
        apply lt_le. eapply lt_le_trans; eassumption.
      * exact (lt_not_le _ _ E1 Hle).
      * specialize (H2 r Hr). apply ltb_false in H2. apply H2.
        eapply lt_le_trans; eassumption.
    + destruct Inv as (-> & Hno).
      split; [reflexivity|]. split; [apply leb_le, E2|].
      split; [apply ltb_lt, E1|].
      exists seen, []. split; [reflexivity|]. split; [|intros r []].
      intros r Hr. apply leb_false. intros Hle. apply (Hno r Hr). split.
      * apply leb_le. eapply le_trans; eassumption.
      * apply ltb_lt. eapply lt_le_trans; eassumption.
  - (* better than the best score, but under the threshold *)
    destruct bm as [best|].
    + destruct Inv as (-> & Ht & Hp & l1 & l2 & -> & H1 & H2).
      exfalso. apply leb_false in E2. apply E2.
      apply leb_le in Ht. apply ltb_lt in E1.
      apply lt_le. eapply le_lt_trans; eassumption.
    + destruct Inv as (-> & Hno). split; [reflexivity|].
      intros r Hr. apply in_app_or in Hr as [Hr|[<-|[]]]; [apply Hno, Hr|].
      intros [Hge _]. congruence.
  - (* not better than the best score *)
    destruct bm as [best|].
    + destruct Inv as (-> & Ht & Hp & l1 & l2 & -> & H1 & H2).
      repeat (split; [assumption || reflexivity|]).
      exists l1, (l2 ++ [row]). rewrite <- app_assoc.
      split; [reflexivity|]. split; [exact H1|].
      intros r Hr. apply in_app_or in Hr as [Hr|[<-|[]]]; [apply H2, Hr | exact E1].
    + destruct Inv as (-> & Hno). split; [reflexivity|].
      intros r Hr. apply in_app_or in Hr as [Hr|[<-|[]]]; [apply Hno, Hr|].
      intros [_ Hpos]. congruence.
Qed.

Lemma fuzzy_scan_scanned rest seen state :
  scanned seen state ->
  scanned (seen ++ rest)
          (fold_left (fuzzy_step_with lower threshold name artist) rest state).
Proof.
  revert seen state. induction rest as [|row rest IH]; intros seen state Inv; cbn.
  - now rewrite app_nil_r.
  - replace (seen ++ row :: rest) with ((seen ++ [row]) ++ rest)
      by (rewrite <- app_assoc; reflexivity).
    apply IH, fuzzy_step_scanned, Inv.
Qed.

End FuzzyScan.

End ResolutionFacts.

Import MusicRecommender ResolutionFacts Samples.

(** The fuzzy example of the specification: "mr brightside" resolves to
    "Mr. Brightside" at threshold 0.8, an unrelated name does not. *)
Example fuzzy_mr_brightside :
  let df := [plain_track "t1" "Mr. Brightside" "The Killers"] in
  _fuzzy_search (service cosine (with_threshold 0.8) df) df "mr brightside" None
    = Some df /\
  _fuzzy_search (service cosine (with_threshold 0.8) df) df
    "Supercalifragilistic" None = None.
Proof. split; vm_compute; reflexivity. Qed.

(** Float64 rounding decides at the threshold.  Against "Hello" by
    "Adele", the query "Hallo" by "Adela" has ratio 0.8 on the name and on
    the artist; 0.8 * 0.7 + 0.8 * 0.3 is 0.7999999999999999 in float64,
    which is under the default threshold 0.8: no match. *)
Example fuzzy_hallo_adela :
  let hello := plain_track "t1" "Hello" "Adele" in
  ratio (lower "Hallo") (lower "Hello") = 0.8%float /\
  ratio (lower "Adela") (lower "Adele") = 0.8%float /\
  combined_score "Hallo" (Some "Adela"%string) hello
    = 0.7999999999999999%float /\
  _fuzzy_search (service cosine default_config [hello]) [hello]
    "Hallo" (Some "Adela"%string) = None.
Proof. repeat split; vm_compute; reflexivity. Qed.



(** C5 (counterexample).  A track_id is given that no record has,
    together with a name: the record is resolved by the name, so name
    matching is used although a track_id was given; with the track_id
    alone the resolution fails. *)
Lemma find_track_unknown_id_falls_back_to_name :
  let song := plain_track "t1" "Song" "Artist" in
  let self := service cosine default_config [song] in
  _find_track self [song] (Some "zz"%string) (Some "Song"%string) None
    = Some [song] /\
  _find_track self [song] (Some "zz"%string) None None = None.
Proof. split; reflexivity. Qed.

(** C5 (amended).  Resolution by identifier has the highest priority:
    whenever track_id is given and some record has that identifier, the
    records with that identifier are returned, whatever the name and the
    artist; name-based matching is used when track_id is not given or
    when no record has it, the result then being the one obtained without
    track_id. *)
Theorem find_track_by_id_first self df id name artist :
  truthy (Some id) = true ->
  let by_id := filter (fun r => String.eqb (track_id r) id) df in
  (by_id <> [] -> _find_track self df (Some id) name artist = Some by_id) /\
  (by_id = [] ->
   _find_track self df (Some id) name artist = _find_track self df None name artist).
Proof.
  intros Hid. cbv zeta. unfold _find_track. rewrite Hid. split.
  - destruct (filter _ df) as [|r rs]; [congruence | reflexivity].
  - intros ->. reflexivity.
Qed.

Lemma find_track_by_id_first_witness :
  let song := plain_track "t1" "Song" "Artist" in
  _find_track (service cosine default_config [song]) [song]
    (Some "t1"%string) (Some "Other"%string) None = Some [song].
Proof.
  cbv zeta.
  apply (find_track_by_id_first
           (service cosine default_config [plain_track "t1" "Song" "Artist"])
           [plain_track "t1" "Song" "Artist"] "t1" (Some "Other"%string) None
           eq_refl).
  discriminate.
Defined.

(** C10.  When the identifier lookup does not resolve, the exact
    (case-insensitive) name match yields several rows and more than one of
    them remains after the optional narrowing by artist, resolution
    returns the first remaining row, in dataset order: it neither fails
    nor goes on to fuzzy matching. *)
Theorem find_track_ambiguous_name_returns_first self df id name artist :
  (forall i, id = Some i -> truthy id = true ->
     filter (fun r => String.eqb (track_id r) i) df = []) ->
  truthy (Some name) = true ->
  let exact :=
    filter (fun r => String.eqb (lower (track_name r)) (lower name)) df in
  let remaining :=
    match artist with
    | Some a =>
        if truthy artist
        then filter (fun r => String.eqb (lower (artist_name r)) (lower a)) exact
        else exact
    | None => exact
    end in
  (1 < length exact)%nat -> (1 < length remaining)%nat ->
  exists first rest,
    remaining = first :: rest /\
    _find_track self df id (Some name) artist = Some [first].
Proof.
  intros Hid Hname. cbv zeta. intros Hexact Hrem.
  unfold _find_track.
  assert (Hby : match id with
                | Some i => if truthy id
                            then filter (fun r => String.eqb (track_id r) i) df
                            else []
                | None => []
                end = []).
  { destruct id as [i|]; [|reflexivity].
    destruct (truthy (Some i)) eqn:E; [|reflexivity]. now apply Hid. }
  rewrite Hby, Hname. unfold find_by_name.
  apply Nat.ltb_lt in Hexact as Hb. rewrite Hb. cbn [andb].
  destruct artist as [a|].
  - destruct (truthy (Some a)).
    + destruct (filter _ (filter _ df)) as [|first rest]; [cbn in Hrem; lia|].
      exists first, rest. split; reflexivity.
    + destruct (filter _ df) as [|first rest]; [cbn in Hrem; lia|].
      exists first, rest. split; reflexivity.
  - destruct (filter _ df) as [|first rest]; [cbn in Hrem; lia|].
    exists first, rest. split; reflexivity.
Qed.

Lemma find_track_ambiguous_name_returns_first_witness :
  let a := plain_track "t1" "Hello" "Adele" in
  let b := plain_track "t2" "hello" "Lionel Richie" in
  _find_track (service cosine default_config [a; b]) [a; b]
    None (Some "HELLO"%string) None = Some [a].
Proof.
  cbv zeta.
  destruct (find_track_ambiguous_name_returns_first
              (service cosine default_config
                 [plain_track "t1" "Hello" "Adele";
                  plain_track "t2" "hello" "Lionel Richie"])
              [plain_track "t1" "Hello" "Adele";
               plain_track "t2" "hello" "Lionel Richie"]
              None "HELLO" None)
    as (first & rest & Hrem & Hres).
  - intros i H. discriminate H.
  - reflexivity.
  - vm_compute. lia.
  - vm_compute. lia.
  - vm_compute in Hrem. injection Hrem as <- <-. exact Hres.
Defined.

(* ------------------------------------------------------------------ *)
(** ** Recommendations over a frame with a missing vector *)

Lemma all_present_missing rows : In None rows -> all_present rows = None.
Proof.
  induction rows as [|[v|] rows IH]; intros H; cbn.
  - destruct H.
  - destruct H as [H|H]; [discriminate|]. now rewrite (IH H).
  - reflexivity.
Qed.

(** Stacking a sequence that holds a [None] never yields a matrix. *)
Lemma vstack_missing_raises rows :
  In None rows -> exists e, vstack rows = Raise e.
Proof.
  intros H. unfold vstack. destruct rows as [|r rows]; [destruct H|].
  rewrite (all_present_missing _ H).
  match goal with
  | |- context [if ?c then _ else _] => destruct c
  end; eexists; reflexivity.
Qed.

(** Once the query is resolved and the embedding type names a column, a
    single record without that vector makes [get_recommendations] end
    with an exception. *)
Lemma get_recommendations_missing_vector_raises
    self id name artist k embedding_type query rest column r :
  _find_track self (_embeddings_cache self) id name artist = Some (query :: rest) ->
  embedding_column embedding_type = Some column ->
  In r (_embeddings_cache self) -> column r = None ->
  exists e, get_recommendations self id name artist k embedding_type = Raise e.
Proof.
  intros Hq Hc Hr Hnone. unfold get_recommendations. rewrite Hq, Hc.
  destruct (vstack_missing_raises (map column (_embeddings_cache self))) as [e He].
  { rewrite <- Hnone. apply in_map, Hr. }
  exists e. now rewrite He.
Qed.

(** C3 (the code at the failing input).  Two records, the second without
    a combined vector: asking for recommendations for the first one ends
    with [ValueError], raised while the candidate matrix is stacked; no
    list is returned. *)
Theorem get_recommendations_missing_vector_raises_at_input :
  let a := vector_track "A" "Song A" "X" [1; 0]%R in
  let b := plain_track "B" "Song B" "Y" in
  get_recommendations (service cosine default_config [a; b])
    (Some "A"%string) None None 1 "combined" = Raise ValueError.
Proof. reflexivity. Qed.

(* ------------------------------------------------------------------ *)
(** ** The end-to-end example of the specification *)

Lemma normalize_row_e1 : normalize_row [1; 0]%R = [1 / 1; 0 / 1]%R.
Proof.
  unfold normalize_row, handle_zeros, norm. cbn [inner].
  replace (1 * 1 + (0 * 0 + 0))%R with 1%R by ring. rewrite sqrt_1.
  destruct (Req_dec_T 1 0); [lra | reflexivity].
Qed.

Lemma normalize_row_e2 : normalize_row [0; 1]%R = [0 / 1; 1 / 1]%R.
Proof.
  unfold normalize_row, handle_zeros, norm. cbn [inner].
  replace (0 * 0 + (1 * 1 + 0))%R with 1%R by ring. rewrite sqrt_1.
  destruct (Req_dec_T 1 0); [lra | reflexivity].
Qed.

(** Records A = [1, 0], B = [0, 1], C = [1, 0] under the cosine metric,
    queried with A's vector, [k = 2], A's index excluded: C (score 1) and
    then B (score 0). *)
Example find_similar_end_to_end :
  find_similar cosine [1; 0]%R [[1; 0]; [0; 1]; [1; 0]]%R 2 (Some [0%Z])
  = Ok [(2%nat, Fin 1); (1%nat, Fin 0)].
Proof.
  unfold find_similar, find_similar_with, similarities, cosine_similarity.
  cbn -[normalize_row]. rewrite !normalize_row_e1, !normalize_row_e2. cbn.
  settle_scores. unfold Pos.to_nat. cbn. repeat f_equal; lra.
Qed.

(** The same frame through [get_recommendations]: the recommendations for
    A are C, with the rounded score 1, and then B, with the rounded
    score 0. *)
Example get_recommendations_end_to_end :
  let df := [vector_track "A" "a" "x" [1; 0]%R;
             vector_track "B" "b" "y" [0; 1]%R;
             vector_track "C" "c" "z" [1; 0]%R] in
  exists sc sb,
    get_recommendations (service cosine default_config df)
      (Some "A"%string) None None 2 "combined"
    = Ok [ {| rec_track_id := "C"; rec_track_name := "c"; rec_artist_name := "z";
              rec_album_name := ""; similarity_score := round4 (Fin sc) |};
           {| rec_track_id := "B"; rec_track_name := "b"; rec_artist_name := "y";
              rec_album_name := ""; similarity_score := round4 (Fin sb) |} ]
    /\ sc = 1%R /\ sb = 0%R.
Proof.
  cbv zeta. unfold get_recommendations. cbn -[find_similar].
  unfold find_similar, find_similar_with, similarities, cosine_similarity.
  cbn -[normalize_row]. rewrite !normalize_row_e1, !normalize_row_e2. cbn.
  settle_scores. unfold Pos.to_nat. cbn. settle_scores.
  eexists _, _. split; [reflexivity | split; lra].
Qed.

(* ================================================================== *)
(** * Further properties of the similarity engine *)

Module EngineFacts.
Local Open Scope R_scope.

Lemma ordered_app_in {A} (rel : A -> A -> Prop) l1 l2 x y :
  ordered rel (l1 ++ l2) -> In x l1 -> In y l2 -> rel x y.
Proof.
  intros H Hx Hy.
  apply In_nth_error in Hx as [p Hp]. apply In_nth_error in Hy as [q Hq].
  assert (Lp : (p < length l1)%nat).
  { apply nth_error_Some. rewrite Hp. discriminate. }
  apply (H p (length l1 + q)%nat x y); [lia | |].
  - rewrite nth_error_app1 by exact Lp. exact Hp.
  - rewrite nth_error_app2 by lia.
    replace (length l1 + q - length l1)%nat with q by lia. exact Hq.
Qed.

Lemma NoDup_firstn {A} n (l : list A) : NoDup l -> NoDup (firstn n l).
Proof.
  intros H. rewrite <- (firstn_skipn n l) in H.
  exact (NoDup_app_remove_r _ _ H).
Qed.

Lemma argsort_NoDup a : NoDup (argsort a).
Proof.
  apply (Permutation_NoDup (Permutation_sym (argsort_perm a))), seq_NoDup.
Qed.

Lemma similarities_length m q M sims :
  similarities m q M = Ok sims -> length sims = length M.
Proof.
  unfold similarities. destruct m.
  - unfold cosine_similarity.
    destruct (check_pairwise_arrays [q] M) as [[]|e]; cbn; [|discriminate].
    intros H. injection H as <-. apply length_map.
  - unfold euclidean_distances.
    destruct (check_pairwise_arrays [q] M) as [[]|e]; cbn; [|discriminate].
    intros H. injection H as <-. now rewrite !length_map.
  - assert (G : forall l : matrix,
              length (concat (map (fun x => map (fun y => inner x y) [q]) l))
              = length l).
    { induction l as [|y l IH]; cbn; [reflexivity | f_equal; exact IH]. }
    unfold dot_T. destruct M as [|x M]; unfold bind.
    + intros H. injection H as <-. reflexivity.
    + destruct (has_cols (length x) (x :: M) && has_cols (length x) [q]);
        [|discriminate].
      intros H. injection H as <-. exact (G (x :: M)).
Qed.

End EngineFacts.

Import EngineFacts.

(** X1.  For a non-negative [k], [find_similar] returns exactly
    [min(k, n)] pairs, [n] being the number of candidates. *)
Theorem find_similar_exact_length m q M k ex res :
  (0 <= k)%Z -> find_similar m q M k ex = Ok res ->
  length res = Nat.min (Z.to_nat k) (length M).
Proof.
  intros Hk H. apply find_similar_inv in H as (sims & Hs & ->).
  rewrite length_map. unfold slice_to. destruct (Z.leb_spec 0 k); [|lia].
  rewrite length_firstn, length_rev, argsort_length, exclude_length, length_map.
  now rewrite (similarities_length _ _ _ _ Hs).
Qed.

Lemma find_similar_exact_length_witness :
  length [(1%nat, Fin 0); (0%nat, NegInf)] = Nat.min (Z.to_nat 2) 2.
Proof.
  apply (find_similar_exact_length dot [1; 0]%R [[1; 0]; [0; 1]]%R 2
           (Some [0%Z]) [(1%nat, Fin 0); (0%nat, NegInf)]).
  - lia.
  - unfold find_similar, find_similar_with, similarities. cbn. unfold Pos.to_nat. cbn.
    do 4 f_equal. lra.
Defined.

(** X2.  The indices returned by [find_similar] are valid candidate
    positions and pairwise distinct; each comes with its similarity after
    exclusion, which for an index that is not excluded is the similarity
    computed by the metric. *)
Theorem find_similar_indices m q M k ex res sims :
  similarities m q M = Ok sims -> find_similar m q M k ex = Ok res ->
  NoDup (map fst res) /\
  forall i s, In (i, s) res ->
    (i < length M)%nat /\
    s = nth i (exclude (map Fin sims) ex) NegInf /\
    ((forall l, ex = Some l -> ~ In (Z.of_nat i) l) -> s = Fin (nth i sims 0%R)).
Proof.
  intros Hs H. unfold find_similar, find_similar_with in H. rewrite Hs in H. cbn in H.
  injection H as <-. set (a := exclude (map Fin sims) ex). split.
  - rewrite map_map. cbn. rewrite map_id.
    unfold slice_to. destruct (0 <=? k)%Z; apply NoDup_firstn, NoDup_rev, argsort_NoDup.
  - intros i s Hin. apply in_map_iff in Hin as (idx & Heq & Hidx).
    injection Heq as -> <-.
    apply slice_to_incl in Hidx. apply in_rev in Hidx. apply argsort_in in Hidx.
    unfold a in Hidx. rewrite exclude_length, length_map in Hidx.
    split; [now rewrite <- (similarities_length _ _ _ _ Hs)|]. split; [reflexivity|].
    intros Hex. unfold a. rewrite (exclude_other _ _ _ Hex).
    rewrite (nth_indep _ NegInf (Fin 0%R)) by (rewrite length_map; exact Hidx).
    apply map_nth.
Qed.

(** A worked call, used to instantiate the statements above and below. *)
Lemma find_similar_sample :
  similarities dot [1; 0]%R [[1; 0]; [0; 1]]%R
    = Ok [(1 * 1 + (0 * 0 + 0))%R; (0 * 1 + (1 * 0 + 0))%R] /\
  find_similar dot [1; 0]%R [[1; 0]; [0; 1]]%R 1 (Some [0%Z])
    = Ok [(1%nat, Fin (0 * 1 + (1 * 0 + 0)))].
Proof.
  split; [reflexivity|].
  unfold find_similar, find_similar_with, similarities. cbn. unfold Pos.to_nat. reflexivity.
Qed.

Lemma find_similar_indices_witness :
  NoDup (map fst [(1%nat, Fin (0 * 1 + (1 * 0 + 0)))]).
Proof.
  destruct find_similar_sample as [Hs Hf].
  exact (proj1 (find_similar_indices dot [1; 0]%R [[1; 0]; [0; 1]]%R 1
                  (Some [0%Z]) _ _ Hs Hf)).
Defined.

(** X3.  Top-k: for a non-negative [k], no candidate left out of the
    result has a larger similarity (after exclusion) than a returned one. *)
Theorem find_similar_top_k m q M k ex res sims :
  (0 <= k)%Z ->
  similarities m q M = Ok sims -> find_similar m q M k ex = Ok res ->
  forall j, (j < length M)%nat -> ~ In j (map fst res) ->
  forall i s, In (i, s) res ->
    score_leb (nth j (exclude (map Fin sims) ex) NegInf) s = true.
Proof.
  intros Hk Hs H j Hj Hout i s Hin.
  unfold find_similar, find_similar_with in H. rewrite Hs in H. cbn in H. injection H as <-.
  set (a := exclude (map Fin sims) ex) in *.
  rewrite map_map in Hout. cbn in Hout. rewrite map_id in Hout.
  apply in_map_iff in Hin as (idx & Heq & Hidx). injection Heq as -> <-.
  unfold slice_to in Hout, Hidx. destruct (Z.leb_spec 0 k); [|lia].
  set (L := rev (argsort a)) in *. set (n := Z.to_nat k) in *.
  assert (HjL : In j L).
  { apply -> in_rev. apply argsort_in. unfold a.
    rewrite exclude_length, length_map, (similarities_length _ _ _ _ Hs). exact Hj. }
  rewrite <- (firstn_skipn n L) in HjL.
  apply in_app_or in HjL as [HjL | HjL]; [contradiction|].
  assert (Hord : ordered (fun x y => asc (fun t => nth t a NegInf) y x) L).
  { intros u v x y Huv Hx Hy.
    exact (ordered_rev _ _ _ (argsort_ordered a) u v x y Huv Hx Hy). }
  rewrite <- (firstn_skipn n L) in Hord.
  exact (proj1 (ordered_app_in _ _ _ _ _ Hord Hidx HjL)).
Qed.

Lemma find_similar_top_k_witness :
  score_leb (nth 0 (exclude (map Fin [(1 * 1 + (0 * 0 + 0))%R;
                                      (0 * 1 + (1 * 0 + 0))%R])
                            (Some [0%Z])) NegInf)
            (Fin (0 * 1 + (1 * 0 + 0))) = true.
Proof.
  destruct find_similar_sample as [Hs Hf].
  apply (find_similar_top_k dot [1; 0]%R [[1; 0]; [0; 1]]%R 1 (Some [0%Z])
           _ _ ltac:(lia) Hs Hf 0%nat ltac:(cbn; lia)
           ltac:(cbn; intros [H|[]]; discriminate H) 1%nat).
  left. reflexivity.
Defined.

(* ------------------------------------------------------------------ *)
(** ** The three metrics *)

Module MetricRangeFacts.
Local Open Scope R_scope.

Lemma check_pairwise_arrays_sym (a b : vec) :
  check_pairwise_arrays [a] [b] = check_pairwise_arrays [b] [a].
Proof.
  unfold check_pairwise_arrays, has_cols. cbn [forallb].
  rewrite !Nat.eqb_refl, !andb_true_r. cbn [andb].
  destruct (Nat.eqb_spec (length b) (length a)) as [E|E].
  - rewrite E, Nat.eqb_refl. reflexivity.
  - destruct (Nat.eqb_spec (length a) (length b)) as [E'|E']; [congruence|].
    now rewrite !andb_false_r.
Qed.

Lemma dot_T_single_sym (a b : vec) :
  dot_T [a] [b] = dot_T [b] [a].
Proof.
  unfold dot_T, has_cols. cbn [forallb map].
  rewrite !Nat.eqb_refl, !andb_true_r. cbn [andb].
  rewrite (inner_comm b a).
  destruct (Nat.eqb_spec (length b) (length a)) as [E|E].
  - rewrite E, Nat.eqb_refl. reflexivity.
  - destruct (Nat.eqb_spec (length a) (length b)) as [E'|E']; [congruence|].
    reflexivity.
Qed.

(** Cauchy-Schwarz for the inner product of two lists. *)
Lemma inner_cauchy_schwarz a b :
  inner a b * inner a b <= inner a a * inner b b.
Proof.
  revert b. induction a as [|x a IH]; intros [|y b]; cbn [inner].
  - lra.
  - lra.
  - pose proof (inner_self_nonneg (x :: a)) as H. cbn [inner] in H. nra.
  - specialize (IH b).
    pose proof (inner_self_nonneg a) as HA. pose proof (inner_self_nonneg b) as HB.
    set (s := inner a b) in *. set (A := inner a a) in *. set (B := inner b b) in *.
    assert (Hxx : 0 <= x * x) by (pose proof (Rle_0_sqr x) as Q; unfold Rsqr in Q; exact Q).
    assert (Hyy : 0 <= y * y) by (pose proof (Rle_0_sqr y) as Q; unfold Rsqr in Q; exact Q).
    assert (Hu : 0 <= x * x * B + y * y * A).
    { apply Rplus_le_le_0_compat; apply Rmult_le_pos; assumption. }
    assert (H1 : (2 * x * y * s) * (2 * x * y * s)
                 <= 4 * ((x * x) * (y * y)) * (A * B)).
    { replace ((2 * x * y * s) * (2 * x * y * s))
        with (4 * ((x * x) * (y * y)) * (s * s)) by ring.
      apply Rmult_le_compat_l; [|exact IH].
      apply Rmult_le_pos; [lra | apply Rmult_le_pos; assumption]. }
    assert (H2 : 0 <= (x * x * B - y * y * A) * (x * x * B - y * y * A)).
    { pose proof (Rle_0_sqr (x * x * B - y * y * A)) as Q. unfold Rsqr in Q. exact Q. }
    assert (Hsq : (2 * x * y * s) * (2 * x * y * s)
                  <= (x * x * B + y * y * A) * (x * x * B + y * y * A)).
    { replace ((x * x * B + y * y * A) * (x * x * B + y * y * A))
        with ((x * x * B - y * y * A) * (x * x * B - y * y * A)
              + 4 * ((x * x) * (y * y)) * (A * B)) by ring.
      lra. }
    assert (Hv : 2 * x * y * s <= x * x * B + y * y * A).
    { destruct (Rle_dec (2 * x * y * s) (x * x * B + y * y * A)) as [|Hn];
        [assumption|].
      exfalso. apply Rnot_le_lt in Hn.
      assert (Hlt : (x * x * B + y * y * A) * (x * x * B + y * y * A)
                    < (2 * x * y * s) * (2 * x * y * s)).
      { apply Rmult_le_0_lt_compat; assumption. }
      lra. }
    replace ((x * y + s) * (x * y + s))
      with ((x * y) * (x * y) + 2 * x * y * s + s * s) by ring.
    replace ((x * x + A) * (y * y + B))
      with ((x * y) * (x * y) + (x * x * B + y * y * A) + A * B) by ring.
    lra.
Qed.

Lemma inner_le_norms a b : Rabs (inner a b) <= norm a * norm b.
Proof.
  pose proof (inner_cauchy_schwarz a b) as H.
  pose proof (norm_nonneg a) as Ha. pose proof (norm_nonneg b) as Hb.
  pose proof (norm_sqr a) as Sa. pose proof (norm_sqr b) as Sb.
  assert (Hp : 0 <= norm a * norm b) by nra.
  assert (Hsq : Rabs (inner a b) * Rabs (inner a b)
                <= (norm a * norm b) * (norm a * norm b)).
  { replace (Rabs (inner a b) * Rabs (inner a b)) with (inner a b * inner a b).
    - nra.
    - unfold Rabs. destruct (Rcase_abs (inner a b)); ring. }
  pose proof (Rabs_pos (inner a b)) as Hr. nra.
Qed.

Lemma inner_divide2 a b c d :
  c <> 0 -> d <> 0 -> inner (divide a c) (divide b d) = inner a b / (c * d).
Proof.
  intros Hc Hd. unfold divide. revert b.
  induction a as [|x a IH]; intros [|y b]; cbn; try (field; split; assumption).
  rewrite IH. field. split; assumption.
Qed.

(** The cosine of two vectors, as [cosine_similarity] computes it. *)
Lemma cosine_pair_range a b :
  -1 <= inner (normalize_row a) (normalize_row b) <= 1.
Proof.
  unfold normalize_row, handle_zeros.
  pose proof (inner_le_norms a b) as H.
  pose proof (norm_nonneg a) as Ha. pose proof (norm_nonneg b) as Hb.
  assert (Hab : Rabs (inner a b) <= 0 -> inner a b = 0).
  { intros H0. pose proof (Rabs_pos (inner a b)).
    destruct (Req_dec (inner a b) 0) as [|Hne]; [assumption|].
    apply Rabs_pos_lt in Hne. lra. }
  pose proof (inner_divide2 a b) as G.
  destruct (Req_dec_T (norm a) 0) as [Za|Na];
    destruct (Req_dec_T (norm b) 0) as [Zb|Nb];
    rewrite G by lra.
  - rewrite Hab by (rewrite Za, Zb in H; lra).
    unfold Rdiv. rewrite Rmult_0_l. lra.
  - rewrite Hab by (rewrite Za in H; lra).
    unfold Rdiv. rewrite Rmult_0_l. lra.
  - rewrite Hab by (rewrite Zb in H; lra).
    unfold Rdiv. rewrite Rmult_0_l. lra.
  - assert (Hp : 0 < norm a * norm b) by nra.
    assert (H12 : - (norm a * norm b) <= inner a b <= norm a * norm b).
    { unfold Rabs in H. destruct (Rcase_abs (inner a b)); lra. }
    destruct H12 as [H1 H2]. split.
    + apply Rmult_le_reg_r with (norm a * norm b); [exact Hp|].
      unfold Rdiv. rewrite Rmult_assoc, Rinv_l by lra. lra.
    + apply Rmult_le_reg_r with (norm a * norm b); [exact Hp|].
      unfold Rdiv. rewrite Rmult_assoc, Rinv_l by lra. lra.
Qed.

End MetricRangeFacts.

Import MetricRangeFacts.

(** X4.  [compute_similarity] is symmetric in its two embeddings, for
    every metric, the raised error included. *)
Theorem compute_similarity_symmetric m (a b : vec) :
  compute_similarity m a b = compute_similarity m b a.
Proof.
  unfold compute_similarity. cbv zeta. destruct m.
  - unfold cosine_similarity. rewrite (check_pairwise_arrays_sym a b).
    destruct (check_pairwise_arrays [b] [a]) as [[]|e]; [|reflexivity].
    cbn. unfold entry00. cbn. now rewrite inner_comm.
  - unfold euclidean_distances. rewrite (check_pairwise_arrays_sym a b).
    destruct (check_pairwise_arrays [b] [a]) as [[]|e]; [|reflexivity].
    cbn. unfold entry00. cbn. rewrite (inner_comm a b).
    replace (-2 * inner b a + inner a a + inner b b)%R
      with (-2 * inner b a + inner b b + inner a a)%R by ring.
    reflexivity.
  - now rewrite dot_T_single_sym.
Qed.

(** X5.  The value of [compute_similarity] is bounded: a cosine lies in
    [-1, 1], the euclidean similarity 1 / (1 + distance) lies in (0, 1],
    and a dot product is at most the product of the two norms in absolute
    value. *)
Theorem compute_similarity_range m (a b : vec) s :
  compute_similarity m a b = Ok s ->
  match m with
  | cosine => (-1 <= s <= 1)%R
  | euclidean => (0 < s <= 1)%R
  | dot => (Rabs s <= norm a * norm b)%R
  end.
Proof.
  unfold compute_similarity. cbv zeta. destruct m.
  - unfold cosine_similarity.
    destruct (check_pairwise_arrays [a] [b]) as [[]|e]; [|discriminate].
    cbn. intros H. injection H as <-. apply cosine_pair_range.
  - unfold euclidean_distances.
    destruct (check_pairwise_arrays [a] [b]) as [[]|e]; [|discriminate].
    cbn. intros H. injection H as <-.
    set (d := sqrt _). assert (Hd : (0 <= d)%R) by apply sqrt_pos.
    split.
    + apply Rdiv_lt_0_compat; lra.
    + apply Rmult_le_reg_r with (1 + d)%R; [lra|].
      unfold Rdiv. rewrite Rmult_assoc, Rinv_l by lra. lra.
  - unfold dot_T.
    destruct (has_cols (length a) [a] && has_cols (length a) [b]); [|discriminate].
    cbn. intros H. injection H as <-. apply inner_le_norms.
Qed.

Lemma compute_similarity_range_witness :
  (Rabs (1 * 0 + (0 * 1 + 0)) <= norm [1; 0] * norm [0; 1])%R.
Proof.
  exact (compute_similarity_range dot [1; 0]%R [0; 1]%R _ eq_refl).
Defined.

(** X6.  A non-empty embedding is at euclidean similarity 1 from itself,
    and at cosine similarity 1 from itself unless it is a zero vector. *)
Theorem compute_similarity_self (a : vec) :
  (0 < length a)%nat ->
  compute_similarity euclidean a a = Ok 1%R /\
  (norm a <> 0%R -> compute_similarity cosine a a = Ok 1%R).
Proof.
  intros Hlen.
  assert (Hc : check_pairwise_arrays [a] [a] = Ok tt).
  { unfold check_pairwise_arrays, has_cols. cbn [forallb].
    rewrite Nat.eqb_refl. destruct (Nat.ltb_spec 0 (length a)); [reflexivity | lia]. }
  unfold compute_similarity. cbv zeta. split.
  - unfold euclidean_distances. rewrite Hc. cbn. unfold entry00. cbn.
    f_equal.
    replace (-2 * inner a a + inner a a + inner a a)%R with 0%R by ring.
    unfold Rmax. destruct (Rle_dec 0 0) as [_|F]; [|exfalso; apply F; lra].
    rewrite sqrt_0. field.
  - intros Hn. unfold cosine_similarity. rewrite Hc. cbn. unfold entry00. cbn.
    f_equal. unfold normalize_row, handle_zeros.
    destruct (Req_dec_T (norm a) 0) as [|_]; [contradiction|].
    rewrite inner_divide by exact Hn. rewrite <- norm_sqr. now field.
Qed.

Lemma compute_similarity_self_witness :
  compute_similarity euclidean [1; 0]%R [1; 0]%R = Ok 1%R.
Proof.
  exact (proj1 (compute_similarity_self [1; 0]%R ltac:(cbn; lia))).
Defined.

(** X7.  The engine is built for the three metric names only: any other
    name raises [ValueError] at construction. *)
Theorem init_supported_metrics name :
  (In name ["cosine"; "euclidean"; "dot"]%string <->
   exists m, SimilarityEngine.init name = Ok m) /\
  (~ In name ["cosine"; "euclidean"; "dot"]%string ->
   SimilarityEngine.init name = Raise ValueError).
Proof.
  unfold SimilarityEngine.init.
  destruct (String.eqb_spec name "cosine") as [->|H1].
  { split; [split; [eauto | intros _; left; reflexivity]|].
    intros H. exfalso. apply H. left. reflexivity. }
  destruct (String.eqb_spec name "euclidean") as [->|H2].
  { split; [split; [eauto | intros _; right; left; reflexivity]|].
    intros H. exfalso. apply H. right. left. reflexivity. }
  destruct (String.eqb_spec name "dot") as [->|H3].
  { split; [split; [eauto | intros _; right; right; left; reflexivity]|].
    intros H. exfalso. apply H. right. right. left. reflexivity. }
  split; [|reflexivity]. split.
  - intros [E|[E|[E|[]]]]; congruence.
  - intros [m Hm]. discriminate Hm.
Qed.

(* ================================================================== *)
(** * Further properties of the embedding fusion *)

Module FusionFacts.
Import EmbeddingCombiner.
Local Open Scope R_scope.

Lemma divide_one v : divide v 1 = v.
Proof.
  unfold divide. rewrite <- (map_id v) at 2. apply map_ext. intros x. field.
Qed.

Lemma inner_app a b : inner (a ++ b) (a ++ b) = inner a a + inner b b.
Proof.
  induction a as [|x a IH]; cbn; [ring|]. rewrite IH. ring.
Qed.

Lemma inner_scale v c : inner (scale v c) (scale v c) = c * c * inner v v.
Proof.
  unfold scale. induction v as [|x v IH]; cbn; [ring|]. rewrite IH. ring.
Qed.

Lemma inner_unit v : norm v = 1 -> inner v v = 1.
Proof. intros H. rewrite <- norm_sqr, H. ring. Qed.

End FusionFacts.

Import EmbeddingCombiner FusionFacts.

(** X8.  [_normalize_vector] keeps the length; it returns a zero-norm
    vector unchanged and any other vector scaled to norm 1; applying it
    twice is applying it once. *)
Theorem normalize_vector_properties v :
  length (_normalize_vector v) = length v /\
  (norm v = 0%R -> _normalize_vector v = v) /\
  (norm v <> 0%R -> norm (_normalize_vector v) = 1%R) /\
  _normalize_vector (_normalize_vector v) = _normalize_vector v.
Proof.
  split; [apply _normalize_vector_length|].
  split; [apply _normalize_vector_zero|].
  split; [apply _normalize_vector_unit|].
  destruct (Req_dec_T (norm v) 0) as [Hz|Hn].
  - now rewrite !(_normalize_vector_zero v Hz).
  - pose proof (_normalize_vector_unit v Hn) as H1.
    unfold _normalize_vector at 1. cbv zeta. rewrite H1.
    destruct (Req_dec_T 1 0) as [F|_]; [lra|]. apply divide_one.
Qed.

(** X9.  The combined column has one entry per record; an entry is present
    exactly for the records that have both vectors, and its dimension is
    the sum of the two dimensions, whatever the weights and the normalize
    flag. *)
Theorem combine_embeddings_shape self df out :
  combined_embedding (combine_embeddings self df) = Some out ->
  length out = length (records df) /\
  forall i r, nth_error (records df) i = Some r ->
    exists c, nth_error out i = Some c /\
      match c with
      | Some v =>
          exists tv fv, text_embedding r = Some tv /\
            feature_embedding r = Some fv /\
            length v = (length tv + length fv)%nat
      | None => text_embedding r = None \/ feature_embedding r = None
      end.
Proof.
  unfold combine_embeddings.
  destruct (records df) as [|r0 rs] eqn:E; [discriminate|].
  destruct (negb (has_text_embedding df) || negb (has_feature_embedding df));
    [discriminate|].
  cbn [combined_embedding]. intros H. injection H as <-.
  split; [exact (length_map (combine_row self) (r0 :: rs))|].
  intros i r Hi. exists (combine_row self r). split.
  - change (nth_error (map (combine_row self) (r0 :: rs)) i
            = Some (combine_row self r)).
    now rewrite nth_error_map, Hi.
  - unfold combine_row.
    destruct (text_embedding r) as [tv|]; [|left; reflexivity].
    destruct (feature_embedding r) as [fv|]; [|right; reflexivity].
    exists tv, fv. split; [reflexivity|]. split; [reflexivity|].
    destruct (normalize self).
    + rewrite _normalize_vector_length. apply weighted_concat_length.
    + apply weighted_concat_length.
Qed.

Lemma combine_embeddings_shape_witness :
  length [@None vec] = length [ {| text_embedding := None;
                                   feature_embedding := Some [1%R] |} ].
Proof.
  exact (proj1 (combine_embeddings_shape
           {| text_weight := 7 / 10; features_weight := 3 / 10; normalize := true |}
           {| has_text_embedding := true; has_feature_embedding := true;
              records := [ {| text_embedding := None;
                              feature_embedding := Some [1%R] |} ] |}
           [None] eq_refl)).
Defined.

(** X10.  With normalisation on and two non-zero input vectors, the
    squared norm of the weighted concatenation is
    [text_weight^2 + features_weight^2]: the two blocks weigh
    [text_weight] and [features_weight], whatever the magnitudes of the
    inputs. *)
Theorem weighted_concat_balance self tv fv :
  normalize self = true -> norm tv <> 0%R -> norm fv <> 0%R ->
  inner (weighted_concat self tv fv) (weighted_concat self tv fv)
  = (text_weight self * text_weight self
     + features_weight self * features_weight self)%R.
Proof.
  intros Hn Ht Hf. unfold weighted_concat. rewrite Hn. cbv zeta.
  rewrite inner_app, !inner_scale.
  rewrite (inner_unit _ (_normalize_vector_unit tv Ht)).
  rewrite (inner_unit _ (_normalize_vector_unit fv Hf)). ring.
Qed.

Lemma weighted_concat_balance_witness :
  inner (weighted_concat {| text_weight := 7 / 10; features_weight := 3 / 10;
                            normalize := true |} [1%R] [1%R])
        (weighted_concat {| text_weight := 7 / 10; features_weight := 3 / 10;
                            normalize := true |} [1%R] [1%R])
  = (7 / 10 * (7 / 10) + 3 / 10 * (3 / 10))%R.
Proof.
  assert (H1 : norm [1%R] <> 0%R).
  { intros H. apply norm_zero_iff in H. inversion H; lra. }
  exact (weighted_concat_balance
           {| text_weight := 7 / 10; features_weight := 3 / 10; normalize := true |}
           [1%R] [1%R] eq_refl H1 H1).
Defined.

(** X11.  [combine_embeddings] adds no column exactly when the frame has
    no records or lacks one of the two embedding columns. *)
Theorem combine_embeddings_unchanged_iff self df :
  combined_embedding (combine_embeddings self df) = None <->
  records df = [] \/ has_text_embedding df = false
  \/ has_feature_embedding df = false.
Proof.
  unfold combine_embeddings.
  destruct (records df) as [|r0 rs]; [cbn; tauto|].
  destruct (has_text_embedding df), (has_feature_embedding df); cbn;
    split; try tauto; try discriminate.
  intros [H|[H|H]]; discriminate H.
Qed.

(* ================================================================== *)
(** * Further properties of the missing-value handling *)

Module ImputationMoreFacts.
Import FeatureEmbeddingsGenerator.
Local Open Scope Q_scope.

Lemma insert_value_in x l y : In y (insert_value x l) <-> y = x \/ In y l.
Proof.
  induction l as [|z l IH]; cbn.
  - intuition.
  - destruct (Qle_bool x z); cbn; [intuition|]. rewrite IH. intuition.
Qed.

Lemma sort_values_in l y : In y (sort_values l) <-> In y l.
Proof.
  induction l as [|x l IH]; cbn; [tauto|].
  change (fold_right insert_value [] l) with (sort_values l).
  rewrite insert_value_in, IH. intuition.
Qed.

Lemma observed_in col x : In x (observed col) <-> In (Some x) col.
Proof.
  induction col as [|[y|] col IH]; cbn; [tauto | |].
  - rewrite IH. split; intros [H|H]; auto; left; congruence.
  - rewrite IH. split; [auto | intros [H|H]; [discriminate | exact H]].
Qed.

(** The median is one of the observed values or the mean of two of them. *)
Lemma median_between col lo hi m :
  (forall x, In (Some x) col -> lo <= x <= hi) ->
  median col = Some m -> lo <= m <= hi.
Proof.
  intros Hb. unfold median. cbv zeta.
  set (values := sort_values (observed col)).
  assert (Hv : forall i, (i < length values)%nat ->
               lo <= nth i values 0 <= hi).
  { intros i Hi. apply Hb, observed_in, sort_values_in. now apply nth_In. }
  destruct (Nat.eqb_spec (length values) 0) as [|Hn]; [discriminate|].
  assert (H2 : (length values / 2 < length values)%nat)
    by (apply Nat.div_lt; lia).
  destruct (Hv (length values / 2 - 1)%nat ltac:(lia)) as [A1 A2].
  destruct (Hv (length values / 2)%nat H2) as [B1 B2].
  set (a := nth (length values / 2 - 1) values 0) in *.
  set (b := nth (length values / 2) values 0) in *.
  destruct (Nat.odd (length values)); intros H; injection H as <-.
  - split; assumption.
  - split.
    + apply Qle_shift_div_l; [reflexivity | lra].
    + apply Qle_shift_div_r; [reflexivity | lra].
Qed.

Lemma fill_cell_nth (v : Q) (col : list (option Q)) i (c : option Q) :
  nth_error col i = Some c ->
  nth_error (fillna (Some v) col) i
  = Some (match c with None => Some v | Some _ => c end).
Proof.
  intros H. unfold fillna. now rewrite nth_error_map, H.
Qed.

Lemma _handle_missing_values_map X :
  _handle_missing_values X = map (fun c => (fst c, handled (snd c))) X.
Proof.
  unfold _handle_missing_values, handled. apply map_ext.
  intros [name col]. cbn. destruct (existsb isna col); reflexivity.
Qed.

Lemma handled_length col : length (handled col) = length col.
Proof.
  unfold handled. destruct (existsb isna col); [|reflexivity].
  unfold fillna. destruct (median col); [apply length_map | reflexivity].
Qed.

Lemma handled_keeps (col : list (option Q)) i (x : Q) :
  nth_error col i = Some (Some x) -> nth_error (handled col) i = Some (Some x).
Proof.
  intros H. unfold handled. destruct (existsb isna col); [|exact H].
  destruct (median col) as [m|]; [|exact H].
  now rewrite (fill_cell_nth m col i (Some x) H).
Qed.

Lemma handled_complete col :
  forallb isna col = false -> existsb isna (handled col) = false.
Proof.
  intros H. unfold handled. destruct (existsb isna col) eqn:E; [|exact E].
  destruct (median col) as [m|] eqn:Em.
  - cbn. clear. induction col as [|[x|] col IH]; cbn; auto.
  - apply median_none_iff in Em. congruence.
Qed.

Lemma handled_in col x :
  In (Some x) (handled col) -> In (Some x) col \/ median col = Some x.
Proof.
  unfold handled. destruct (existsb isna col); [|auto].
  destruct (median col) as [m|]; [|auto]. cbn.
  intros H. apply in_map_iff in H as ([y|] & Hy & Hin).
  - left. now rewrite <- Hy.
  - right. exact Hy.
Qed.

End ImputationMoreFacts.

Import FeatureEmbeddingsGenerator ImputationMoreFacts.

(** X12.  [_handle_missing_values] keeps the shape of the frame (the same
    columns, in the same order, with the same number of rows), never
    changes an observed value, and leaves no missing value in a column
    that has at least one observed value. *)
Theorem handle_missing_values_frame (X : frame) :
  map fst (_handle_missing_values X) = map fst X /\
  forall j name col, nth_error X j = Some (name, col) ->
    exists col',
      nth_error (_handle_missing_values X) j = Some (name, col') /\
      length col' = length col /\
      (forall i x, nth_error col i = Some (Some x) ->
                   nth_error col' i = Some (Some x)) /\
      (forallb isna col = false -> existsb isna col' = false).
Proof.
  rewrite _handle_missing_values_map. split.
  - rewrite map_map. reflexivity.
  - intros j name col Hj. exists (handled col). split.
    + exact (map_nth_error (fun c => (fst c, handled (snd c))) j X Hj).
    + split; [apply handled_length|]. split.
      * intros i x. apply handled_keeps.
      * apply handled_complete.
Qed.

Lemma handle_missing_values_frame_witness :
  exists col',
    nth_error (_handle_missing_values [("tempo"%string, [Some 1; None])]) 0
      = Some ("tempo"%string, col') /\
    length col' = 2%nat.
Proof.
  destruct (proj2 (handle_missing_values_frame [("tempo"%string, [Some 1; None])])
              0%nat "tempo"%string [Some 1; None] eq_refl)
    as (col' & H1 & H2 & _).
  exists col'. split; assumption.
Defined.

(** X13.  Imputation stays within the observed range: when every observed
    value of a column lies between [lo] and [hi], so does every value of
    the column after [_handle_missing_values]. *)
Theorem handle_missing_values_within_bounds name (col : list cell) lo hi :
  (forall x, In (Some x) col -> lo <= x <= hi) ->
  forall col', _handle_missing_values [(name, col)] = [(name, col')] ->
  forall x, In (Some x) col' -> lo <= x <= hi.
Proof.
  intros Hb col' H x Hx. rewrite _handle_missing_values_map in H.
  cbn in H. injection H as <-.
  apply handled_in in Hx as [Hx|Hx]; [apply Hb, Hx|].
  exact (median_between col lo hi x Hb Hx).
Qed.

Lemma handle_missing_values_within_bounds_witness : 0 <= 1 <= 100.
Proof.
  apply (handle_missing_values_within_bounds "popularity" [Some 1; None] 0 100)
    with (col' := [Some 1; Some 1]).
  - intros x [H|[H|[]]]; [|discriminate H].
    injection H as <-. split; discriminate.
  - reflexivity.
  - left. reflexivity.
Defined.

Lemma select_columns_names (df : frame) (l : list string) :
  (forall f, In f l ->
     existsb (fun c : column => String.eqb (fst c) f) df = true) ->
  map fst (flat_map (fun f =>
             match find (fun c : column => String.eqb (fst c) f) df with
             | Some c => [c]
             | None => []
             end) l) = l.
Proof.
  induction l as [|f l IH]; intros Hall; [reflexivity|].
  cbn [flat_map]. rewrite map_app. change (f :: l) with ([f] ++ l).
  f_equal; [|apply IH; intros g Hg; apply Hall; right; exact Hg].
  specialize (Hall f (or_introl eq_refl)).
  destruct (find _ df) as [c|] eqn:E.
  - apply find_some in E as [_ E]. apply String.eqb_eq in E.
    cbn. now rewrite E.
  - apply existsb_exists in Hall as (c & Hc & Hf).
    apply (find_none _ _ E) in Hc. congruence.
Qed.

(** X14.  The matrix handed to the scaler has exactly the requested
    features that are columns of the frame, in the order requested; when
    none of them is a column nothing is handed to the scaler. *)
Theorem scaler_input_columns (df : frame) numeric_features :
  let available :=
    filter (fun f => existsb (fun c : column => String.eqb (fst c) f) df)
           numeric_features in
  (available = [] -> scaler_input df numeric_features = None) /\
  (forall X, scaler_input df numeric_features = Some X -> map fst X = available).
Proof.
  cbv zeta. unfold scaler_input.
  destruct (forallb _ df); [split; [reflexivity | discriminate]|].
  set (available := filter _ numeric_features).
  assert (Hall : forall f, In f available ->
            existsb (fun c : column => String.eqb (fst c) f) df = true).
  { intros f Hf. apply filter_In in Hf. apply Hf. }
  pose proof (select_columns_names df available Hall) as G.
  destruct available as [|f l] eqn:Ea; [split; [reflexivity | discriminate]|].
  split; [discriminate|].
  intros X H. injection H as <-.
  rewrite _handle_missing_values_map, map_map. exact G.
Qed.

(* ================================================================== *)
(** * Further properties of the recommender *)

Module RecommenderFacts.
Import MusicRecommender RecommendsSpec.

Lemma assemble_recommends self df qi qa k all sims acc out :
  (forall p, In p sims -> In p all) ->
  Forall (recommends self df qi qa all) acc ->
  assemble self df qi qa k sims acc = Ok out ->
  Forall (recommends self df qi qa all) out.
Proof.
  revert acc. induction sims as [|[idx s] sims IH]; intros acc Hsub Hacc H.
  - cbn in H. injection H as <-. exact Hacc.
  - assert (Hsub' : forall p, In p sims -> In p all)
      by (intros p Hp; apply Hsub; right; exact Hp).
    cbn [assemble] in H.
    destruct (Nat.eqb_spec idx qi) as [|Hne]; [exact (IH acc Hsub' Hacc H)|].
    destruct (nth_error df idx) as [track|] eqn:Et; [|discriminate].
    destruct (get (exclude_same_artist (config self)) false
              && String.eqb (artist_name track) qa)%bool eqn:Ea;
      [exact (IH acc Hsub' Hacc H)|].
    destruct (score_ltb s _) eqn:Es; [exact (IH acc Hsub' Hacc H)|].
    assert (Hnew : Forall (recommends self df qi qa all)
                     (acc ++ [ {| rec_track_id := track_id track;
                                  rec_track_name := track_name track;
                                  rec_artist_name := artist_name track;
                                  rec_album_name := album_name track;
                                  similarity_score := round4 s |} ])).
    { apply Forall_app. split; [exact Hacc|]. constructor; [|constructor].
      exists idx, s, track. split; [apply Hsub; left; reflexivity|].
      split; [exact Hne|]. split; [exact Et|]. split; [reflexivity|].
      split; [exact Es|].
      intros Hx. rewrite Hx in Ea. cbn in Ea.
      intros Heq. rewrite Heq, String.eqb_refl in Ea. discriminate. }
    destruct (k <=? _)%Z; [injection H as <-; exact Hnew|].
    exact (IH _ Hsub' Hnew H).
Qed.

Lemma assemble_length self df qi qa k sims acc out :
  (Z.of_nat (length acc) < k)%Z ->
  assemble self df qi qa k sims acc = Ok out ->
  (Z.of_nat (length out) <= k)%Z.
Proof.
  revert acc. induction sims as [|[idx s] sims IH]; intros acc Hacc H.
  - cbn in H. injection H as <-. lia.
  - cbn [assemble] in H.
    destruct (Nat.eqb idx qi); [exact (IH acc Hacc H)|].
    destruct (nth_error df idx) as [track|]; [|discriminate].
    destruct (_ && _)%bool; [exact (IH acc Hacc H)|].
    destruct (score_ltb s _); [exact (IH acc Hacc H)|].
    destruct (Z.leb_spec k (Z.of_nat (length (acc ++
      [ {| rec_track_id := track_id track;
           rec_track_name := track_name track;
           rec_artist_name := artist_name track;
           rec_album_name := album_name track;
           similarity_score := round4 s |} ])))) as [Hle|Hgt].
    + injection H as <-. rewrite length_app in *. cbn [length] in *. lia.
    + exact (IH _ Hgt H).
Qed.

(** The steps of [get_recommendations] once it returns a list built by the
    walk. *)
Lemma get_recommendations_inv self id name artist k ty recs :
  get_recommendations self id name artist k ty = Ok recs ->
  recs = [] \/
  exists query rest column M qi q sims,
    _find_track self (_embeddings_cache self) id name artist = Some (query :: rest) /\
    embedding_column ty = Some column /\
    vstack (map column (_embeddings_cache self)) = Ok M /\
    first_index (_embeddings_cache self) (track_id query) 0 = Some qi /\
    column query = Some q /\
    find_similar (similarity_engine self) q M (k + 1) (Some [Z.of_nat qi]) = Ok sims /\
    assemble self (_embeddings_cache self) qi (artist_name query) k sims [] = Ok recs.
Proof.
  unfold get_recommendations. cbv zeta.
  destruct (_find_track _ _ id name artist) as [[|query rest]|] eqn:E1;
    [discriminate | | intros H; injection H as <-; left; reflexivity].
  destruct (embedding_column ty) as [column|] eqn:E2;
    [|intros H; injection H as <-; left; reflexivity].
  destruct (vstack _) as [M|e] eqn:E3; cbn [bind]; [|discriminate].
  destruct (first_index _ _ 0) as [qi|] eqn:E4; [|discriminate].
  destruct (column query) as [q|] eqn:E5; cbn [bind]; [|discriminate].
  destruct (find_similar _ q M (k + 1) _) as [sims|e] eqn:Ef; cbn [bind];
    [|discriminate].
  intros H. right. exists query, rest, column, M, qi, q, sims.
  repeat (split; [reflexivity || assumption|]). exact H.
Qed.

End RecommenderFacts.

Import MusicRecommender RecommendsSpec RecommenderFacts.

(** Sample frame and call for the statements below: three tracks under
    the dot metric, recommendations for A. *)
Lemma get_recommendations_sample :
  let df := [vector_track "A" "a" "x" [1; 0]%R;
             vector_track "B" "b" "y" [0; 1]%R;
             vector_track "C" "c" "z" [1; 0]%R] in
  exists rec,
    get_recommendations (service dot default_config df)
      (Some "A"%string) None None 1 "combined" = Ok [rec].
Proof.
  cbv zeta. unfold get_recommendations. cbn -[find_similar].
  unfold find_similar, find_similar_with, similarities. cbn.
  settle_scores. unfold Pos.to_nat. cbn. settle_scores.
  eexists. reflexivity.
Qed.

(** X15.  [get_recommendations] answers with the empty list, and raises
    nothing, when the track is not resolved, and when it is resolved but
    the embedding type is none of "combined", "text" and "feature". *)
Theorem get_recommendations_empty_cases self id name artist k ty :
  (_find_track self (_embeddings_cache self) id name artist = None ->
   get_recommendations self id name artist k ty = Ok []) /\
  (forall query rest,
     _find_track self (_embeddings_cache self) id name artist
       = Some (query :: rest) ->
     ~ In ty ["combined"; "text"; "feature"]%string ->
     get_recommendations self id name artist k ty = Ok []).
Proof.
  unfold get_recommendations. cbv zeta. split.
  - intros ->. reflexivity.
  - intros query rest -> Hty.
    assert (E : embedding_column ty = None).
    { unfold embedding_column.
      destruct (String.eqb_spec ty "combined") as [->|_];
        [exfalso; apply Hty; left; reflexivity|].
      destruct (String.eqb_spec ty "text") as [->|_];
        [exfalso; apply Hty; right; left; reflexivity|].
      destruct (String.eqb_spec ty "feature") as [->|_];
        [exfalso; apply Hty; right; right; left; reflexivity|].
      reflexivity. }
    now rewrite E.
Qed.

(** X16.  For [k >= 1], [get_recommendations] returns at most [k]
    recommendations. *)
Theorem get_recommendations_at_most_k self id name artist k ty recs :
  (1 <= k)%Z ->
  get_recommendations self id name artist k ty = Ok recs ->
  (Z.of_nat (length recs) <= k)%Z.
Proof.
  intros Hk H. apply get_recommendations_inv in H
    as [->|(query & rest & column & M & qi & q & sims & _ & _ & _ & _ & _ & _ & Ha)].
  - cbn. lia.
  - apply (assemble_length self (_embeddings_cache self) qi (artist_name query)
             k sims [] recs); [cbn; lia | exact Ha].
Qed.

Lemma get_recommendations_at_most_k_witness :
  exists recs,
    get_recommendations
      (service dot default_config
         [vector_track "A" "a" "x" [1; 0]%R;
          vector_track "B" "b" "y" [0; 1]%R;
          vector_track "C" "c" "z" [1; 0]%R])
      (Some "A"%string) None None 1 "combined" = Ok recs /\
    (Z.of_nat (length recs) <= 1)%Z.
Proof.
  destruct get_recommendations_sample as [rec H]. exists [rec].
  split; [exact H|].
  exact (get_recommendations_at_most_k _ _ _ _ 1 _ [rec] ltac:(lia) H).
Defined.

(** X17.  Every recommendation comes from the ranking that [find_similar]
    returns for the query's vector against the matrix of all vectors of
    the frame, with [k + 1] and the query's position excluded (the first
    row with the query's identifier): it is a row of the frame at a
    position of that ranking other than the query's, with the score of
    that position in the ranking, rounded; that score is not below
    [min_similarity_threshold], and with [exclude_same_artist] set the
    row's artist is not the query's. *)
Theorem get_recommendations_filters self id name artist k ty recs :
  get_recommendations self id name artist k ty = Ok recs ->
  recs = [] \/
  exists query rest column query_embedding embeddings_matrix query_index
         similar_indices,
    _find_track self (_embeddings_cache self) id name artist
      = Some (query :: rest) /\
    embedding_column ty = Some column /\
    column query = Some query_embedding /\
    vstack (map column (_embeddings_cache self)) = Ok embeddings_matrix /\
    first_index (_embeddings_cache self) (track_id query) 0 = Some query_index /\
    find_similar (similarity_engine self) query_embedding embeddings_matrix
                 (k + 1) (Some [Z.of_nat query_index]) = Ok similar_indices /\
    Forall (recommends self (_embeddings_cache self) query_index
                       (artist_name query) similar_indices) recs.
Proof.
  intros H. apply get_recommendations_inv in H
    as [->|(query & rest & column & M & qi & q & sims
            & Hq & Hc & Hv & Hi & Hcq & Hf & Ha)];
    [left; reflexivity|].
  right. exists query, rest, column, q, M, qi, sims.
  repeat (split; [assumption|]).
  apply (assemble_recommends self (_embeddings_cache self) qi
           (artist_name query) k sims sims [] recs);
    [auto | constructor | exact Ha].
Qed.

Lemma get_recommendations_filters_witness :
  exists recs,
    get_recommendations
      (service dot default_config
         [vector_track "A" "a" "x" [1; 0]%R;
          vector_track "B" "b" "y" [0; 1]%R;
          vector_track "C" "c" "z" [1; 0]%R])
      (Some "A"%string) None None 1 "combined" = Ok recs.
Proof.
  destruct get_recommendations_sample as [rec H]. exists [rec].
  destruct (get_recommendations_filters _ _ _ _ _ _ [rec] H); exact H.
Defined.

(* ------------------------------------------------------------------ *)
(** ** Track resolution, continued *)

Module ResolutionMoreFacts.
Import MusicRecommender.

Lemma fuzzy_search_in self df name artist res :
  _fuzzy_search self df name artist = Some res ->
  exists best, res = [best] /\ In best df.
Proof.
  unfold _fuzzy_search, _fuzzy_search_with. cbv zeta.
  assert (Base : scanned lower (get (fuzzy_threshold (config self)) 0.8%float)
                         name artist [] (None, 0%float)).
  { split; [reflexivity | intros r []]. }
  apply (fuzzy_scan_scanned _ _ _ _ df) in Base. cbn [app] in Base.
  unfold scanned in Base.
  destruct (fst (fold_left _ df (None, 0%float))) as [best|]; [|discriminate].
  destruct Base as (_ & _ & _ & l1 & l2 & Hdf & _).
  intros H. injection H as <-. exists best. split; [reflexivity|].
  rewrite Hdf. apply in_or_app. right. left. reflexivity.
Qed.

Lemma find_by_name_in self df name artist res :
  find_by_name self df name artist = Some res ->
  exists r, res = [r] /\ In r df.
Proof.
  unfold find_by_name. cbv zeta.
  set (result := filter _ df).
  set (narrowed := match artist with Some a => _ | None => result end).
  assert (Hn : forall r, In r narrowed -> In r df).
  { intros r Hr. unfold narrowed in Hr.
    assert (Hres : In r result -> In r df)
      by (intros H; apply filter_In in H; apply H).
    destruct artist as [a|]; [|auto].
    destruct (_ && _)%bool; [|auto].
    apply filter_In in Hr. apply Hres, Hr. }
  destruct narrowed as [|r rest].
  - destruct (get _ true); [apply fuzzy_search_in | discriminate].
  - intros H. injection H as <-. exists r. split; [reflexivity|].
    apply Hn. left. reflexivity.
Qed.

Lemma lower_empty s : lower s = EmptyString <-> s = EmptyString.
Proof. destruct s; cbn; split; (reflexivity || discriminate). Qed.

Lemma truthy_lower a b :
  lower a = lower b -> truthy (Some a) = truthy (Some b).
Proof.
  intros H. destruct a as [|c a], b as [|d b]; cbn in *;
    (reflexivity || discriminate).
Qed.

Lemma fold_left_ext {A B} (f g : A -> B -> A) l a :
  (forall x y, f x y = g x y) -> fold_left f l a = fold_left g l a.
Proof.
  intros H. revert a. induction l as [|y l IH]; intros a; cbn; [reflexivity|].
  now rewrite H, IH.
Qed.

Lemma combined_score_lower n1 n2 a1 a2 row :
  lower n1 = lower n2 -> option_map lower a1 = option_map lower a2 ->
  combined_score n1 a1 row = combined_score n2 a2 row.
Proof.
  intros Hn Ha. unfold combined_score, combined_score_with. cbv zeta.
  rewrite Hn.
  destruct a1 as [x|], a2 as [y|]; cbn in Ha; try discriminate; [|reflexivity].
  injection Ha as Ha. rewrite (truthy_lower x y Ha), Ha. reflexivity.
Qed.

End ResolutionMoreFacts.

Import ResolutionMoreFacts.

(** X18.  Resolution only ever returns rows of the frame: a non-empty
    list, which is either the rows carrying the given identifier or a
    single row found by name. *)
Theorem find_track_returns_rows self df id name artist res :
  _find_track self df id name artist = Some res ->
  res <> [] /\ (forall r, In r res -> In r df) /\
  (length res = 1%nat \/
   exists i, id = Some i /\ truthy id = true /\
             res = filter (fun r => String.eqb (track_id r) i) df).
Proof.
  unfold _find_track. cbv zeta.
  set (by_id := match id with Some i => _ | None => [] end).
  destruct by_id as [|r0 rs] eqn:E.
  - intros H.
    assert (Hn : exists r, res = [r] /\ In r df).
    { destruct name as [n|]; [|discriminate].
      destruct (truthy (Some n)); [|discriminate].
      exact (find_by_name_in _ _ _ _ _ H). }
    destruct Hn as (r & -> & Hr). split; [discriminate|]. split.
    + intros r' [<-|[]]. exact Hr.
    + left. reflexivity.
  - intros H. injection H as <-. split; [discriminate|].
    unfold by_id in E. destruct id as [i|]; [|discriminate].
    destruct (truthy (Some i)) eqn:Et; [|discriminate].
    split.
    + intros r Hr. rewrite <- E in Hr. apply filter_In in Hr. apply Hr.
    + right. exists i. rewrite E. auto.
Qed.

Lemma find_track_returns_rows_witness :
  [plain_track "t1" "Song" "Artist"] <> [].
Proof.
  exact (proj1 (find_track_returns_rows
                  (service cosine default_config [plain_track "t1" "Song" "Artist"])
                  [plain_track "t1" "Song" "Artist"]
                  (Some "t1"%string) None None _ eq_refl)).
Defined.

(** X19.  When the identifier lookup does not resolve and exactly one row
    has the given name (ignoring case), that row is returned whatever
    artist is given: the artist only narrows several name matches. *)
Theorem find_track_unique_name_ignores_artist self df id name artist r :
  (forall i, id = Some i -> truthy id = true ->
     filter (fun t => String.eqb (track_id t) i) df = []) ->
  truthy (Some name) = true ->
  filter (fun t => String.eqb (lower (track_name t)) (lower name)) df = [r] ->
  _find_track self df id (Some name) artist = Some [r].
Proof.
  intros Hid Hname Hone. unfold _find_track. cbv zeta.
  assert (Hby : match id with
                | Some i => if truthy id
                            then filter (fun t => String.eqb (track_id t) i) df
                            else []
                | None => []
                end = []).
  { destruct id as [i|]; [|reflexivity].
    destruct (truthy (Some i)) eqn:E; [|reflexivity]. now apply Hid. }
  rewrite Hby, Hname. unfold find_by_name. cbv zeta. rewrite Hone.
  cbn [length Nat.ltb Nat.leb andb]. destruct artist; reflexivity.
Qed.

Lemma find_track_unique_name_ignores_artist_witness :
  _find_track (service cosine default_config [plain_track "t1" "Hello" "Adele"])
    [plain_track "t1" "Hello" "Adele"] None (Some "hello"%string)
    (Some "Lionel Richie"%string)
  = Some [plain_track "t1" "Hello" "Adele"].
Proof.
  apply (find_track_unique_name_ignores_artist
           (service cosine default_config [plain_track "t1" "Hello" "Adele"])
           [plain_track "t1" "Hello" "Adele"] None "hello"
           (Some "Lionel Richie"%string) (plain_track "t1" "Hello" "Adele")).
  - intros i H. discriminate H.
  - reflexivity.
  - reflexivity.
Defined.

(** X20.  Resolution is case-insensitive in the query: two names, and two
    artists, that agree after lowercasing resolve to the same result, in
    the exact and in the fuzzy search. *)
Theorem find_track_case_insensitive self df id n1 n2 a1 a2 :
  lower n1 = lower n2 -> option_map lower a1 = option_map lower a2 ->
  _find_track self df id (Some n1) a1 = _find_track self df id (Some n2) a2.
Proof.
  intros Hn Ha. unfold _find_track. cbv zeta.
  destruct (match id with Some i => _ | None => [] end); [|reflexivity].
  rewrite (truthy_lower n1 n2 Hn). destruct (truthy (Some n2)); [|reflexivity].
  unfold find_by_name. cbv zeta. rewrite Hn.
  assert (Hf : _fuzzy_search self df n1 a1 = _fuzzy_search self df n2 a2).
  { unfold _fuzzy_search, _fuzzy_search_with. cbv zeta. f_equal.
    rewrite (fold_left_ext
               (fuzzy_step (get (fuzzy_threshold (config self)) 0.8%float) n1 a1)
               (fuzzy_step (get (fuzzy_threshold (config self)) 0.8%float) n2 a2));
      [reflexivity|].
    intros st row. unfold fuzzy_step, fuzzy_step_with. cbv zeta.
    change (combined_score_with lower n1 a1 row) with (combined_score n1 a1 row).
    change (combined_score_with lower n2 a2 row) with (combined_score n2 a2 row).
    now rewrite (combined_score_lower n1 n2 a1 a2 row Hn Ha). }
  rewrite Hf.
  destruct a1 as [x|], a2 as [y|]; cbn in Ha; try discriminate; [|reflexivity].
  injection Ha as Ha. rewrite (truthy_lower x y Ha), Ha. reflexivity.
Qed.

Lemma find_track_case_insensitive_witness :
  _find_track (service cosine default_config [plain_track "t1" "Hello" "Adele"])
    [plain_track "t1" "Hello" "Adele"] None (Some "HELLO"%string) None
  = _find_track (service cosine default_config [plain_track "t1" "Hello" "Adele"])
    [plain_track "t1" "Hello" "Adele"] None (Some "hello"%string) None.
Proof.
  exact (find_track_case_insensitive
           (service cosine default_config [plain_track "t1" "Hello" "Adele"])
           [plain_track "t1" "Hello" "Adele"] None "HELLO" "hello" None None
           eq_refl eq_refl).
Defined.

(* ================================================================== *)
(** * Batch recommendations *)

Module BatchFacts.
Import MusicRecommender BatchRecommendations BatchSpec.

Lemma dict_get_set_same {V} (d : list (string * V)) key v :
  dict_get (dict_set d key v) key = Some v.
Proof.
  induction d as [|[k' v'] d IH]; cbn.
  - now rewrite String.eqb_refl.
  - destruct (String.eqb k' key) eqn:E; cbn; rewrite E; [reflexivity | exact IH].
Qed.

Lemma dict_get_set_other {V} (d : list (string * V)) key key' v :
  key' <> key -> dict_get (dict_set d key v) key' = dict_get d key'.
Proof.
  intros Hne. induction d as [|[k' v'] d IH]; cbn.
  - destruct (String.eqb_spec key key'); [congruence | reflexivity].
  - destruct (String.eqb_spec k' key) as [->|Hk]; cbn.
    + destruct (String.eqb_spec key key'); [congruence | reflexivity].
    + destruct (String.eqb k' key'); [reflexivity | exact IH].
Qed.

Lemma batch_raise self k ty ids e :
  fold_left (batch_step self k ty) ids (Raise e) = Raise e.
Proof. induction ids as [|id ids IH]; cbn; [reflexivity | exact IH]. Qed.

Lemma batch_fold self k ty ids seen d results :
  batch_done self k ty seen d ->
  fold_left (batch_step self k ty) ids (Ok d) = Ok results ->
  batch_done self k ty (seen ++ ids) results.
Proof.
  revert seen d. induction ids as [|id ids IH]; intros seen d Inv H.
  - cbn in H. injection H as <-. now rewrite app_nil_r.
  - cbn [fold_left] in H. unfold batch_step at 2 in H. cbn [bind] in H.
    destruct (get_recommendations self (Some id) None None k ty) as [recs|e] eqn:E;
      cbn [bind] in H; [|rewrite batch_raise in H; discriminate].
    replace (seen ++ id :: ids) with ((seen ++ [id]) ++ ids)
      by (rewrite <- app_assoc; reflexivity).
    refine (IH _ _ _ H). destruct Inv as [I1 I2]. split.
    + intros id' Hin. apply in_app_or in Hin as [Hin|[<-|[]]].
      * destruct (I1 id' Hin) as (recs' & Hr & Hg).
        exists recs'. split; [exact Hr|].
        destruct (String.eqb_spec id' id) as [->|Hne].
        -- rewrite dict_get_set_same. congruence.
        -- rewrite dict_get_set_other by exact Hne. exact Hg.
      * exists recs. split; [exact E | apply dict_get_set_same].
    + intros id' Hg. apply in_or_app.
      destruct (String.eqb_spec id' id) as [->|Hne]; [right; left; reflexivity|].
      rewrite dict_get_set_other in Hg by exact Hne. left. apply I2, Hg.
Qed.

End BatchFacts.

Import BatchRecommendations BatchSpec BatchFacts.

(** X21.  When [get_batch_recommendations] returns, its dict has exactly
    the given identifiers as keys, each mapped to what
    [get_recommendations] returns for that identifier alone; it follows
    that the batch call raises as soon as one single call raises. *)
Theorem get_batch_recommendations_entries self ids k ty results :
  get_batch_recommendations self ids k ty = Ok results ->
  (forall id, In id ids ->
     exists recs, get_recommendations self (Some id) None None k ty = Ok recs /\
                  dict_get results id = Some recs) /\
  (forall id, dict_get results id <> None -> In id ids).
Proof.
  intros H. unfold get_batch_recommendations in H.
  apply (batch_fold self k ty ids [] [] results); [|exact H].
  split; [intros id [] | intros id Hg; exfalso; apply Hg; reflexivity].
Qed.

Lemma get_batch_recommendations_entries_witness :
  exists recs,
    get_recommendations (service cosine default_config [])
      (Some "zz"%string) None None 5 "combined" = Ok recs /\
    dict_get [("zz"%string, @nil recommendation)] "zz" = Some recs.
Proof.
  exact (proj1 (get_batch_recommendations_entries
                  (service cosine default_config []) ["zz"%string] 5 "combined"
                  [("zz"%string, [])] eq_refl)
               "zz"%string (or_introl eq_refl)).
Defined.

(* ================================================================== *)
(** * Semantic search *)

Module SemanticFacts.
Import SemanticSearch.

Lemma ordered_filter {A} (rel : A -> A -> Prop) f l :
  ordered rel l -> ordered rel (filter f l).
Proof.
  induction l as [|x l IH]; intros H; cbn; [exact H|].
  apply ordered_cons in H as [Hx Hl].
  destruct (f x); [|exact (IH Hl)].
  apply ordered_cons. split; [|exact (IH Hl)].
  intros y Hy. apply filter_In in Hy. apply Hx, Hy.
Qed.

Lemma ordered_map {A B} (g : A -> B) (rel : B -> B -> Prop) l :
  ordered (fun x y => rel (g x) (g y)) l -> ordered rel (map g l).
Proof.
  intros H p q x y Hpq Hx Hy. rewrite nth_error_map in Hx, Hy.
  destruct (nth_error l p) as [a|] eqn:Ea; [|discriminate].
  destruct (nth_error l q) as [b|] eqn:Eb; [|discriminate].
  cbn in Hx, Hy. injection Hx as <-. injection Hy as <-.
  exact (H p q a b Hpq Ea Eb).
Qed.

(** The ranking returned by [find_similar] is in descending order. *)
Lemma find_similar_descending m q M k ex res :
  find_similar m q M k ex = Ok res -> descending res.
Proof.
  intros H. apply find_similar_inv in H as (sims & _ & ->).
  set (a := exclude (map Fin sims) ex).
  unfold descending. apply ordered_map. cbn [snd].
  apply ordered_slice_to. intros u v x y Huv Hx Hy.
  exact (proj1 (ordered_rev _ _ _ (argsort_ordered a) u v x y Huv Hx Hy)).
Qed.

Lemma score_geb_true s t :
  score_geb s t = true <-> exists x, s = Fin x /\ (t <= x)%R.
Proof.
  destruct s as [|x]; cbn.
  - split; [discriminate | intros (x & H & _); discriminate H].
  - destruct (Rle_dec t x) as [Hle|Hn]; split; intros H.
    + exists x. auto.
    + reflexivity.
    + discriminate H.
    + destruct H as (y & Hy & Hle). injection Hy as ->. contradiction.
Qed.

Lemma filter_subseq {A} (f : A -> bool) l : subseq (filter f l) l.
Proof.
  induction l as [|x l IH]; cbn; [constructor|].
  destruct (f x); constructor; exact IH.
Qed.

End SemanticFacts.

Import SemanticSearch SemanticFacts.

(** X22.  [search_by_concept] returns a part of the ranking that
    [find_similar] computes for the query embedding, without exclusions:
    the pairs of that ranking whose score is finite and at least
    [min_similarity], all of them and no other pair, in the order of the
    ranking.  The order is therefore still descending, and for [k >= 0]
    there are at most [k] results. *)
Theorem search_by_concept_results query_embedding M m k min_similarity res :
  search_by_concept query_embedding M m k min_similarity = Ok res ->
  exists q ranking,
    query_embedding = Ok q /\
    find_similar m q M k None = Ok ranking /\
    subseq res ranking /\
    (forall i s, In (i, s) res <->
       In (i, s) ranking /\ exists x, s = Fin x /\ (min_similarity <= x)%R) /\
    descending res /\
    ((0 <= k)%Z -> (Z.of_nat (length res) <= k)%Z).
Proof.
  unfold search_by_concept.
  destruct query_embedding as [q|e]; cbn [bind]; [|discriminate].
  destruct (find_similar m q M k None) as [results|e] eqn:E; cbn [bind];
    [|discriminate].
  intros H. injection H as <-. exists q, results.
  split; [reflexivity|]. split; [exact E|].
  split; [apply filter_subseq|]. split; [|split].
  - intros i s. rewrite filter_In. cbn [snd]. now rewrite score_geb_true.
  - apply ordered_filter. exact (find_similar_descending _ _ _ _ _ _ E).
  - intros Hk. pose proof (find_similar_length _ _ _ _ _ _ Hk E) as Hl.
    pose proof (filter_length_le
                  (fun r => score_geb (snd r) min_similarity) results). lia.
Qed.

Lemma search_by_concept_results_witness :
  exists q ranking,
    Ok [1; 0]%R = Ok q /\
    find_similar dot q [[1; 0]; [0; 1]]%R 2 None = Ok ranking /\
    subseq [(0%nat, Fin (1 * 1 + (0 * 0 + 0)))] ranking.
Proof.
  destruct (search_by_concept_results
              (Ok [1; 0]%R) [[1; 0]; [0; 1]]%R dot 2 (1 / 2)%R
              [(0%nat, Fin (1 * 1 + (0 * 0 + 0)))])
    as (q & ranking & Hq & Hr & Hsub & _).
  - unfold search_by_concept, find_similar, find_similar_with, similarities. cbn.
    settle_scores. unfold Pos.to_nat. cbn. settle_scores. reflexivity.
  - exists q, ranking. auto.
Defined.

(* ================================================================== *)
(** * The GET /recommend handler *)

Module EndpointFacts.
Import MusicRecommender.

Lemma get_recommendations_length_bound self id name artist k ty recs :
  (1 <= k)%Z ->
  get_recommendations self id name artist k ty = Ok recs ->
  (Z.of_nat (length recs) <= k)%Z.
Proof.
  intros Hk H. apply get_recommendations_inv in H
    as [->|(query & rest & column & M & qi & q & sims & _ & _ & _ & _ & _ & _ & Ha)].
  - cbn. lia.
  - apply (assemble_length self (_embeddings_cache self) qi (artist_name query)
             k sims [] recs); [cbn; lia | exact Ha].
Qed.

Lemma find_track_rows_in self df id name artist res :
  _find_track self df id name artist = Some res ->
  res <> [] /\ forall r, In r res -> In r df.
Proof.
  unfold _find_track. cbv zeta.
  set (by_id := match id with Some i => _ | None => [] end).
  destruct by_id as [|r0 rs] eqn:E.
  - intros H.
    assert (Hn : exists r, res = [r] /\ In r df).
    { destruct name as [n|]; [|discriminate].
      destruct (truthy (Some n)); [|discriminate].
      exact (find_by_name_in _ _ _ _ _ H). }
    destruct Hn as (r & -> & Hr). split; [discriminate|].
    intros r' [<-|[]]. exact Hr.
  - intros H. injection H as <-. split; [discriminate|].
    unfold by_id in E. destruct id as [i|]; [|discriminate].
    destruct (truthy (Some i)); [|discriminate].
    intros r Hr. rewrite <- E in Hr. apply filter_In in Hr. apply Hr.
Qed.

Lemma valid_embedding_type_column ty :
  existsb (String.eqb ty) ["text"; "feature"; "combined"]%string = true ->
  exists column, embedding_column ty = Some column.
Proof.
  unfold embedding_column. cbn [existsb].
  destruct (String.eqb ty "combined"); [eauto|].
  destruct (String.eqb ty "text"); [eauto|].
  destruct (String.eqb ty "feature"); [eauto|].
  discriminate.
Qed.

End EndpointFacts.

Import EndpointFacts.

(** X23.  The handler answers 404 when the track is not resolved: given a
    running recommender, a track_id or a track_name, and a valid
    embedding type, a failed resolution gives [HTTPException 404]. *)
Theorem endpoint_not_found_404 self id name artist k ty :
  truthy id = true \/ truthy name = true ->
  In ty ["text"; "feature"; "combined"]%string ->
  _find_track self (_embeddings_cache self) id name artist = None ->
  Endpoints.get_recommendations (Some self) id name artist k ty
  = Endpoints.HTTPException 404.
Proof.
  intros Hgiven Hty Hnone. unfold Endpoints.get_recommendations.
  assert (H1 : negb (truthy id) && negb (truthy name) = false).
  { destruct Hgiven as [-> | ->]; [reflexivity | apply andb_false_r]. }
  assert (H2 : existsb (String.eqb ty) ["text"; "feature"; "combined"]%string = true).
  { apply existsb_exists. exists ty. split; [exact Hty | apply String.eqb_refl]. }
  rewrite H1, H2. cbn [negb].
  unfold get_recommendations. cbv zeta. rewrite Hnone. reflexivity.
Qed.

Lemma endpoint_not_found_404_witness :
  Endpoints.get_recommendations
    (Some (service cosine default_config [plain_track "t1" "Song" "Artist"]))
    (Some "zz"%string) None None 5 "combined"
  = Endpoints.HTTPException 404.
Proof.
  apply (endpoint_not_found_404
           (service cosine default_config [plain_track "t1" "Song" "Artist"])
           (Some "zz"%string) None None 5 "combined").
  - left. reflexivity.
  - right. right. left. reflexivity.
  - reflexivity.
Defined.

(** X24.  The handler answers 500 when a record of the frame lacks the
    vector of the requested type: the exception of [get_recommendations]
    is caught at the handler and not turned into "no recommendations". *)
Theorem endpoint_missing_vector_500 self id name artist k ty query rest
    column r :
  truthy id = true \/ truthy name = true ->
  In ty ["text"; "feature"; "combined"]%string ->
  _find_track self (_embeddings_cache self) id name artist
    = Some (query :: rest) ->
  embedding_column ty = Some column ->
  In r (_embeddings_cache self) -> column r = None ->
  Endpoints.get_recommendations (Some self) id name artist k ty
  = Endpoints.HTTPException 500.
Proof.
  intros Hgiven Hty Hq Hc Hr Hnone. unfold Endpoints.get_recommendations.
  assert (H1 : negb (truthy id) && negb (truthy name) = false).
  { destruct Hgiven as [-> | ->]; [reflexivity | apply andb_false_r]. }
  assert (H2 : existsb (String.eqb ty) ["text"; "feature"; "combined"]%string = true).
  { apply existsb_exists. exists ty. split; [exact Hty | apply String.eqb_refl]. }
  rewrite H1, H2. cbn [negb].
  destruct (get_recommendations_missing_vector_raises
              self id name artist k ty query rest column r Hq Hc Hr Hnone)
    as [e ->].
  reflexivity.
Qed.

Lemma endpoint_missing_vector_500_witness :
  Endpoints.get_recommendations
    (Some (service cosine default_config
             [vector_track "A" "a" "x" [1; 0]%R; plain_track "B" "b" "y"]))
    (Some "A"%string) None None 1 "combined"
  = Endpoints.HTTPException 500.
Proof.
  apply (endpoint_missing_vector_500
           (service cosine default_config
              [vector_track "A" "a" "x" [1; 0]%R; plain_track "B" "b" "y"])
           (Some "A"%string) None None 1 "combined"
           (vector_track "A" "a" "x" [1; 0]%R) []
           combined_embedding (plain_track "B" "b" "y")).
  - left. reflexivity.
  - right. right. left. reflexivity.
  - reflexivity.
  - reflexivity.
  - right. left. reflexivity.
  - reflexivity.
Defined.

(** X25.  With a track_id that no record has, the handler never answers
    with a response, even when the track name given with it resolves and
    recommendations are computed: the query summary is looked up by the
    track_id alone. *)
Theorem endpoint_unknown_id_never_succeeds instance i name artist k ty body :
  truthy (Some i) = true ->
  (forall self, instance = Some self ->
     filter (fun r => String.eqb (track_id r) i) (_embeddings_cache self) = []) ->
  Endpoints.get_recommendations instance (Some i) name artist k ty
  <> Endpoints.Response body.
Proof.
  intros Hi Hnone. unfold Endpoints.get_recommendations.
  destruct instance as [self|]; [|discriminate].
  destruct (negb _ && negb _)%bool; [discriminate|].
  destruct (negb (existsb _ _)); [discriminate|].
  destruct (get_recommendations self (Some i) name artist k ty) as [[|rec recs]|e];
    try discriminate.
  cbv zeta. rewrite Hi, (Hnone self eq_refl). discriminate.
Qed.

Lemma endpoint_unknown_id_never_succeeds_witness :
  Endpoints.get_recommendations
    (Some (service cosine default_config [plain_track "t1" "Song" "Artist"]))
    (Some "zz"%string) (Some "Song"%string) None 5 "combined"
  <> Endpoints.Response
       {| Endpoints.query := Endpoints.info_of (plain_track "t1" "Song" "Artist");
          Endpoints.recommendations := [];
          Endpoints.total := 0;
          Endpoints.response_embedding_type := "combined" |}.
Proof.
  apply (endpoint_unknown_id_never_succeeds
           (Some (service cosine default_config
                    [plain_track "t1" "Song" "Artist"]))
           "zz" (Some "Song"%string) None 5 "combined").
  - reflexivity.
  - intros self H. injection H as <-. reflexivity.
Defined.

(** X26.  A response of the handler carries the non-empty list returned by
    [get_recommendations], its length as [total], at most [k] entries for
    [k >= 1], the embedding type asked for, and the summary of a row of
    the frame as the query. *)
Theorem endpoint_response self id name artist k ty body :
  Endpoints.get_recommendations (Some self) id name artist k ty
  = Endpoints.Response body ->
  get_recommendations self id name artist k ty
    = Ok (Endpoints.recommendations body) /\
  Endpoints.recommendations body <> [] /\
  Endpoints.total body = length (Endpoints.recommendations body) /\
  ((1 <= k)%Z -> (Z.of_nat (Endpoints.total body) <= k)%Z) /\
  Endpoints.response_embedding_type body = ty /\
  exists row, In row (_embeddings_cache self) /\
              Endpoints.query body = Endpoints.info_of row.
Proof.
  unfold Endpoints.get_recommendations.
  destruct (negb _ && negb _)%bool; [discriminate|].
  destruct (negb (existsb _ _)); [discriminate|].
  destruct (get_recommendations self id name artist k ty)
    as [[|rec recs]|e] eqn:E; try discriminate.
  cbv zeta.
  assert (G : forall row, In row (_embeddings_cache self) ->
     Endpoints.Response
       {| Endpoints.query := Endpoints.info_of row;
          Endpoints.recommendations := rec :: recs;
          Endpoints.total := length (rec :: recs);
          Endpoints.response_embedding_type := ty |} = Endpoints.Response body ->
     Ok (rec :: recs) = Ok (Endpoints.recommendations body) /\
     Endpoints.recommendations body <> [] /\
     Endpoints.total body = length (Endpoints.recommendations body) /\
     ((1 <= k)%Z -> (Z.of_nat (Endpoints.total body) <= k)%Z) /\
     Endpoints.response_embedding_type body = ty /\
     exists row, In row (_embeddings_cache self) /\
                 Endpoints.query body = Endpoints.info_of row).
  { intros row Hrow H. injection H as <-. cbn.
    split; [reflexivity|]. split; [discriminate|]. split; [reflexivity|].
    split.
    - intros Hk.
      exact (get_recommendations_length_bound self id name artist k ty
               (rec :: recs) Hk E).
    - split; [reflexivity|]. exists row. auto. }
  destruct (truthy id).
  - destruct id as [i|]; [|discriminate].
    destruct (filter _ _) as [|row rows] eqn:F; [discriminate|].
    apply G. assert (Hin : In row (row :: rows)) by (left; reflexivity).
    rewrite <- F in Hin. apply filter_In in Hin. apply Hin.
  - destruct (_find_track _ _ None name artist) as [[|row rows]|] eqn:F;
      try discriminate.
    apply G.
    destruct (find_track_rows_in self (_embeddings_cache self) None name artist
                (row :: rows) F) as [_ Hin].
    apply Hin. left. reflexivity.
Qed.

Lemma endpoint_response_witness :
  exists body,
    Endpoints.get_recommendations
      (Some (service dot default_config
               [vector_track "A" "a" "x" [1; 0]%R;
                vector_track "B" "b" "y" [0; 1]%R;
                vector_track "C" "c" "z" [1; 0]%R]))
      (Some "A"%string) None None 1 "combined" = Endpoints.Response body /\
    Endpoints.total body = length (Endpoints.recommendations body).
Proof.
  destruct get_recommendations_sample as [rec H].
  eexists. split.
  - unfold Endpoints.get_recommendations. cbn -[get_recommendations].
    rewrite H. reflexivity.
  - match goal with
    | |- Endpoints.total ?b = _ =>
        refine (proj1 (proj2 (proj2
          (endpoint_response _ (Some "A"%string) None None 1 "combined" b _))))
    end.
    unfold Endpoints.get_recommendations. cbn -[get_recommendations].
    rewrite H. reflexivity.
Defined.

(* ================================================================== *)
(** * Batched text embeddings *)

Module TextBatchFacts.
Import TextEmbeddingsGenerator.

Lemma count_none_app {A} (l1 l2 : list (option A)) :
  count_none (l1 ++ l2) = (count_none l1 + count_none l2)%nat.
Proof. unfold count_none. now rewrite filter_app, length_app. Qed.

Lemma count_none_somes {A} (l : list A) : count_none (map Some l) = 0%nat.
Proof. unfold count_none. induction l as [|x l IH]; cbn; [reflexivity | exact IH]. Qed.

Lemma count_none_nones {A} n : count_none (repeat (@None A) n) = n.
Proof. unfold count_none. induction n as [|n IH]; cbn; [reflexivity | now rewrite IH]. Qed.

Section Loop.
Variable get_embeddings : list string -> pyresult (list vec).
Variable batch_size : nat.
Hypothesis positive : (1 <= batch_size)%nat.

(** With enough fuel the loop consumes all the texts; when every answer of
    the service has one vector per text, the output grows by one entry per
    text and the error counter by the number of [None] entries. *)
Lemma batch_loop_aligned fuel texts acc errors :
  (forall batch resp, get_embeddings batch = Ok resp ->
                      length resp = length batch) ->
  (length texts <= fuel)%nat ->
  let r := batch_loop get_embeddings fuel batch_size texts acc errors in
  length (fst r) = (length acc + length texts)%nat /\
  (snd r + count_none acc = errors + count_none (fst r))%nat.
Proof.
  intros Hlen. revert texts acc errors.
  induction fuel as [|fuel IH]; intros texts acc errors Hf; cbv zeta.
  - destruct texts; [|cbn in Hf; lia].
    cbn [batch_loop fst snd length]. split; lia.
  - destruct texts as [|t texts];
      [cbn [batch_loop fst snd length]; split; lia|].
    cbn [batch_loop]. set (all := t :: texts) in *.
    assert (Hb : length (firstn batch_size all)
                 = Nat.min batch_size (length all)) by apply length_firstn.
    assert (Hr : length (skipn batch_size all)
                 = (length all - batch_size)%nat) by apply length_skipn.
    assert (Hall : (1 <= length all)%nat) by (cbn; lia).
    destruct (get_embeddings (firstn batch_size all)) as [resp|e] eqn:E.
    + specialize (IH (skipn batch_size all) (acc ++ map Some resp) errors
                     ltac:(lia)).
      cbv zeta in IH. destruct IH as [I1 I2].
      rewrite length_app, length_map, (Hlen _ _ E) in I1.
      rewrite count_none_app, count_none_somes in I2. split; lia.
    + specialize (IH (skipn batch_size all)
                     (acc ++ repeat None (length (firstn batch_size all)))
                     (errors + length (firstn batch_size all))%nat ltac:(lia)).
      cbv zeta in IH. destruct IH as [I1 I2].
      rewrite length_app, repeat_length in I1.
      rewrite count_none_app, count_none_nones in I2. split; lia.
Qed.

(** When the service answers every batch with one vector per text,
    computed text by text, the batching is invisible. *)
Lemma batch_loop_pointwise (f : string -> vec) fuel texts acc errors :
  (forall batch, get_embeddings batch = Ok (map f batch)) ->
  (length texts <= fuel)%nat ->
  batch_loop get_embeddings fuel batch_size texts acc errors
  = (acc ++ map (fun t => Some (f t)) texts, errors).
Proof.
  intros Hs. revert texts acc errors.
  induction fuel as [|fuel IH]; intros texts acc errors Hf.
  - destruct texts; [|cbn in Hf; lia]. cbn. now rewrite app_nil_r.
  - destruct texts as [|t texts]; [cbn; now rewrite app_nil_r|].
    cbn [batch_loop]. set (all := t :: texts) in *.
    assert (Hr : length (skipn batch_size all)
                 = (length all - batch_size)%nat) by apply length_skipn.
    assert (Hall : (1 <= length all)%nat) by (cbn; lia).
    rewrite Hs, IH by lia. f_equal.
    rewrite <- app_assoc. f_equal.
    rewrite map_map, <- map_app, firstn_skipn. reflexivity.
Qed.

(** When the service fails on every batch, every text gets [None] and
    counts as an error. *)
Lemma batch_loop_outage fuel texts acc errors :
  (forall batch, exists e, get_embeddings batch = Raise e) ->
  (length texts <= fuel)%nat ->
  batch_loop get_embeddings fuel batch_size texts acc errors
  = (acc ++ repeat None (length texts), (errors + length texts)%nat).
Proof.
  intros Hs. revert texts acc errors.
  induction fuel as [|fuel IH]; intros texts acc errors Hf.
  - destruct texts; [|cbn in Hf; lia]. cbn. now rewrite app_nil_r, Nat.add_0_r.
  - destruct texts as [|t texts]; [cbn; now rewrite app_nil_r, Nat.add_0_r|].
    cbn [batch_loop]. set (all := t :: texts) in *.
    assert (Hb : length (firstn batch_size all)
                 = Nat.min batch_size (length all)) by apply length_firstn.
    assert (Hr : length (skipn batch_size all)
                 = (length all - batch_size)%nat) by apply length_skipn.
    assert (Hall : (1 <= length all)%nat) by (cbn; lia).
    destruct (Hs (firstn batch_size all)) as [e ->].
    rewrite IH by lia. rewrite <- app_assoc, <- repeat_app. f_equal.
    + do 2 f_equal. lia.
    + lia.
Qed.

End Loop.

End TextBatchFacts.

Import TextEmbeddingsGenerator TextBatchFacts.

(** X27.  Alignment of the batched embeddings: for a positive batch size
    and a service that answers a batch with one vector per text, the list
    returned has one entry per text, and the [errors] counter is the number
    of its [None] entries (the texts of the failed batches). *)
Theorem generate_embeddings_batch_aligned get_embeddings batch_size texts
    all_embeddings errors :
  (forall batch resp, get_embeddings batch = Ok resp ->
                      length resp = length batch) ->
  (0 < batch_size)%Z ->
  _generate_embeddings_batch get_embeddings batch_size texts
    = Embeddings all_embeddings errors ->
  length all_embeddings = length texts /\ errors = count_none all_embeddings.
Proof.
  intros Hlen Hb. unfold _generate_embeddings_batch.
  destruct (Z.eqb_spec batch_size 0); [lia|].
  destruct (Z.ltb_spec batch_size 0); [lia|].
  pose proof (batch_loop_aligned get_embeddings (Z.to_nat batch_size)
                ltac:(lia) (length texts) texts [] 0%nat Hlen (le_n _)) as HL.
  cbv zeta in HL.
  destruct (batch_loop _ _ _ texts [] 0%nat) as [out errs].
  cbn [fst snd length] in HL.
  intros E. injection E as <- <-.
  change (count_none (@nil (option vec))) with 0%nat in HL.
  split; lia.
Qed.

Lemma generate_embeddings_batch_aligned_witness :
  length [Some [1%R]; Some [1%R]; Some [1%R]] = length ["a"; "b"; "c"]%string /\
  0%nat = count_none [Some [1%R]; Some [1%R]; Some [1%R]].
Proof.
  apply (generate_embeddings_batch_aligned
           (fun batch => Ok (map (fun _ => [1%R]) batch)) 2
           ["a"; "b"; "c"]%string).
  - intros batch resp H. injection H as <-. apply length_map.
  - lia.
  - reflexivity.
Defined.

(** X28.  Batching is invisible when the service embeds text by text and
    never fails: whatever the positive batch size, the result is the list
    of the embeddings of the texts, in order, with no error counted. *)
Theorem generate_embeddings_batch_pointwise get_embeddings (f : string -> vec)
    batch_size texts :
  (forall batch, get_embeddings batch = Ok (map f batch)) ->
  (0 < batch_size)%Z ->
  _generate_embeddings_batch get_embeddings batch_size texts
  = Embeddings (map (fun t => Some (f t)) texts) 0.
Proof.
  intros Hs Hb. unfold _generate_embeddings_batch.
  destruct (Z.eqb_spec batch_size 0); [lia|].
  destruct (Z.ltb_spec batch_size 0); [lia|].
  now rewrite (batch_loop_pointwise get_embeddings (Z.to_nat batch_size)
                 ltac:(lia) f (length texts) texts [] 0%nat Hs (le_n _)).
Qed.

Lemma generate_embeddings_batch_pointwise_witness :
  _generate_embeddings_batch (fun batch => Ok (map (fun _ => [1%R]) batch)) 2
    ["a"; "b"; "c"]%string
  = Embeddings [Some [1%R]; Some [1%R]; Some [1%R]] 0.
Proof.
  apply (generate_embeddings_batch_pointwise
           (fun batch => Ok (map (fun _ => [1%R]) batch)) (fun _ => [1%R]) 2
           ["a"; "b"; "c"]%string).
  - intros batch. reflexivity.
  - lia.
Defined.

(** X29.  When the service fails on every batch, the call still returns:
    every text gets [None] and is counted as an error. *)
Theorem generate_embeddings_batch_outage get_embeddings batch_size texts :
  (forall batch, exists e, get_embeddings batch = Raise e) ->
  (0 < batch_size)%Z ->
  _generate_embeddings_batch get_embeddings batch_size texts
  = Embeddings (repeat None (length texts)) (length texts).
Proof.
  intros Hs Hb. unfold _generate_embeddings_batch.
  destruct (Z.eqb_spec batch_size 0); [lia|].
  destruct (Z.ltb_spec batch_size 0); [lia|].
  now rewrite (batch_loop_outage get_embeddings (Z.to_nat batch_size)
                 ltac:(lia) (length texts) texts [] 0%nat Hs (le_n _)).
Qed.

Lemma generate_embeddings_batch_outage_witness :
  _generate_embeddings_batch (fun _ => Raise ValueError) 2 ["a"; "b"; "c"]%string
  = Embeddings [None; None; None] 3.
Proof.
  apply (generate_embeddings_batch_outage (fun _ => Raise ValueError) 2
           ["a"; "b"; "c"]%string).
  - intros batch. exists ValueError. reflexivity.
  - lia.
Defined.

(* ================================================================== *)
(** * Excluded candidates in the ranking *)

(** A worked call in which the excluded index is returned. *)
Lemma find_similar_sample_all :
  find_similar dot [1; 0]%R [[1; 0]; [0; 1]]%R 2 (Some [0%Z])
    = Ok [(1%nat, Fin (0 * 1 + (1 * 0 + 0))); (0%nat, NegInf)].
Proof.
  unfold find_similar, find_similar_with, similarities. cbn. unfold Pos.to_nat. reflexivity.
Qed.

(** X30.  An excluded index is never reported with a similarity: whenever
    [find_similar] returns a pair whose index is in [exclude_indices], the
    score of the pair is [-inf], so that any finite threshold applied to
    the result drops it. *)
Theorem find_similar_excluded_score m q M k l res i s :
  find_similar m q M k (Some l) = Ok res ->
  In (i, s) res -> In (Z.of_nat i) l ->
  s = NegInf /\ forall t, SemanticSearch.score_geb s t = false.
Proof.
  intros H Hin Hex.
  rewrite (find_similar_excluded_neg_inf m q M k l res i s H Hin Hex).
  split; reflexivity.
Qed.

Lemma find_similar_excluded_score_witness : NegInf = NegInf.
Proof.
  refine (proj1 (find_similar_excluded_score dot [1; 0]%R [[1; 0]; [0; 1]]%R 2
                   [0%Z] _ 0%nat NegInf find_similar_sample_all _ _)).
  - right. left. reflexivity.
  - left. reflexivity.
Defined.
